(** * Organization membership, invites, settings and SSO client configs

    A shallow embedding of the two data-access files of the repository:

    - the TypeScript class [TeamDBImpl] (organizations, memberships, generic
      invites, organization settings), written against TypeORM repositories;
    - the Go functions around [OIDCClientConfig], written against a GORM
      connection.

    A table is a finite map from its primary key to the remaining columns.
    An [async] method is a computation over a database connection that
    either resolves to a value or rejects with a thrown error. *)

From Stdlib Require Import String Ascii.
From stdpp Require Import base option list strings gmap fin_maps sorting.

Local Open Scope string_scope.
Local Open Scope nat_scope.

(** ** JavaScript strings *)

Module JS.

(** Strings are sequences of 8-bit characters; the white space of
    [String.prototype.trim] in that range is TAB, LF, VT, FF, CR, SP and
    NBSP. *)
Definition isWhiteSpace (c : ascii) : bool :=
  let n := nat_of_ascii c in
  (Nat.leb 9 n && Nat.leb n 13) || Nat.eqb n 32 || Nat.eqb n 160.

Fixpoint trimStart (l : list ascii) : list ascii :=
  match l with
  | c :: l' => if isWhiteSpace c then trimStart l' else l
  | [] => []
  end.

Definition trim (s : string) : string :=
  string_of_list_ascii
    (rev (trimStart (rev (trimStart (list_ascii_of_string s))))).

(** [!!s] for a string. *)
Definition truthy (s : string) : bool :=
  match s with EmptyString => false | _ => true end.

(** [!!s] for a value of type [string | undefined]. *)
Definition truthy_opt (o : option string) : bool :=
  match o with Some s => truthy s | None => false end.

(** [s && s.trim()] for a value of type [string | undefined]. *)
Definition and_trim (o : option string) : option string :=
  match o with
  | Some s => if truthy s then Some (trim s) else Some s
  | None => None
  end.

(** The character class [[A-Za-z0-9-]]. *)
Definition isSlugChar (c : ascii) : bool :=
  let n := nat_of_ascii c in
  (Nat.leb 65 n && Nat.leb n 90) || (Nat.leb 97 n && Nat.leb n 122)
  || (Nat.leb 48 n && Nat.leb n 57) || Nat.eqb n 45.

(** [/^[A-Za-z0-9-]+$/.test(s)] *)
Definition testSlugPattern (s : string) : bool :=
  truthy s && forallb isSlugChar (list_ascii_of_string s).

(** [a || b] for values of type [string | undefined]. *)
Definition or_else (a b : option string) : option string :=
  if truthy_opt a then a else b.

(** [Array.prototype.sort(cmp)]: the sort is stable, so for a comparator that
    orders its arguments consistently the outcome is the one arrangement in
    which [cmp] of neighbours is at most 0 and equal elements keep their
    order. It is computed here by insertion from the right. *)
Fixpoint sort_insert {A} (cmp : A → A → Z) (x : A) (l : list A) : list A :=
  match l with
  | [] => [x]
  | y :: l' => if (cmp x y <=? 0)%Z then x :: l else y :: sort_insert cmp x l'
  end.

Definition sort {A} (cmp : A → A → Z) (l : list A) : list A :=
  foldr (sort_insert cmp) [] l.

End JS.

(** ** Entities *)

(** [TeamMemberRole = "owner" | "member"] *)
Inductive TeamMemberRole := owner | member.

Global Instance TeamMemberRole_eq_dec : EqDecision TeamMemberRole.
Proof. solve_decision. Defined.

(** Modelled from the spec: the entity classes of the four tables are not
    part of the sources; the columns are the ones the data-access code reads
    and writes, the primary key is the column the code looks rows up by, and
    a flag the code leaves out of a new row takes the value [false]. *)
Module DBTeam.
Record t := mk {
  name : string;
  slug : string;
  creationTime : string;
  markedDeleted : bool;
  deleted : bool
}.
Definition live (r : t) : Prop := deleted r = false ∧ markedDeleted r = false.
Global Instance live_dec r : Decision (live r).
Proof. unfold live. apply _. Defined.
End DBTeam.

Module DBTeamMembership.
Record t := mk {
  teamId : string;
  userId : string;
  role : TeamMemberRole;
  creationTime : string;
  deleted : bool
}.
End DBTeamMembership.

Module DBTeamMembershipInvite.
Record t := mk {
  teamId : string;
  role : TeamMemberRole;
  creationTime : string;
  invalidationTime : string;
  invitedEmail : option string
}.
End DBTeamMembershipInvite.

Module DBOrgSettings.
Record t := mk {
  workspaceSharingDisabled : bool;
  deleted : bool
}.
End DBOrgSettings.

(** Modelled from the spec: the entity class of the user table is not part
    of the sources; the columns are the ones [findMembersByTeam] reads. *)
Module DBUser.
Record t := mk {
  fullName : option string;
  name : option string;
  avatarUrl : option string
}.
End DBUser.

(** [TeamMemberInfo] *)
Record TeamMemberInfo := mkTeamMemberInfo {
  info_userId : string;
  info_fullName : option string;
  info_primaryEmail : option string;
  info_avatarUrl : option string;
  info_role : TeamMemberRole;
  info_memberSince : string
}.

(** The database: one finite map per table, keyed by the primary key
    ([id], and [orgId] for the settings). *)
Record Store := mkStore {
  d_b_team : gmap string DBTeam.t;
  d_b_team_membership : gmap string DBTeamMembership.t;
  d_b_team_membership_invite : gmap string DBTeamMembershipInvite.t;
  d_b_org_settings : gmap string DBOrgSettings.t
}.

Definition with_team (f : gmap string DBTeam.t → gmap string DBTeam.t) (s : Store) : Store :=
  mkStore (f (d_b_team s)) (d_b_team_membership s) (d_b_team_membership_invite s) (d_b_org_settings s).
Definition with_membership
    (f : gmap string DBTeamMembership.t → gmap string DBTeamMembership.t) (s : Store) : Store :=
  mkStore (d_b_team s) (f (d_b_team_membership s)) (d_b_team_membership_invite s) (d_b_org_settings s).
Definition with_invite
    (f : gmap string DBTeamMembershipInvite.t → gmap string DBTeamMembershipInvite.t) (s : Store) : Store :=
  mkStore (d_b_team s) (d_b_team_membership s) (f (d_b_team_membership_invite s)) (d_b_org_settings s).
Definition with_settings
    (f : gmap string DBOrgSettings.t → gmap string DBOrgSettings.t) (s : Store) : Store :=
  mkStore (d_b_team s) (d_b_team_membership s) (d_b_team_membership_invite s) (f (d_b_org_settings s)).

(** ** Promises over a connection *)

(** [ErrorCodes], as far as [TeamDBImpl] uses them. *)
Inductive ErrorCodes := BAD_REQUEST | NOT_FOUND | CONFLICT | INVALID_VALUE.

Global Instance ErrorCodes_eq_dec : EqDecision ErrorCodes.
Proof. solve_decision. Defined.

(** What an [async] method can throw: a [ResponseError] of the code, or the
    error of a statement the database did not execute. *)
Inductive Thrown :=
| ResponseError (code : ErrorCodes) (message : string)
| QueryFailedError.

(** A connection is the database together with the number of statements it
    will still execute before it becomes unavailable ([None]: it never
    does). *)
Record Conn := mkConn { store : Store; budget : option nat }.

Definition Promise (A : Type) : Type := Conn → (Thrown + A) * Conn.

Definition resolve {A} (a : A) : Promise A := λ c, (inr a, c).
Definition reject {A} (e : Thrown) : Promise A := λ c, (inl e, c).
Definition then_ {A B} (m : Promise A) (k : A → Promise B) : Promise B :=
  λ c, match m c with
       | (inr a, c') => k a c'
       | (inl e, c') => (inl e, c')
       end.

Notation "'await' x <- m ; k" := (then_ m (λ x, k))
  (at level 10, x name, m at level 100, k at level 200).
Notation "'await' ' p <- m ; k" := (then_ m (λ x, match x with p => k end))
  (at level 10, p pattern, m at level 100, k at level 200).
Notation "'await_' m ; k" := (then_ m (λ _, k))
  (at level 10, m at level 100, k at level 200).

(** One statement sent to the database. It fails when the connection is
    exhausted or when the database refuses it ([None]); otherwise it yields
    a value and the next store. *)
Definition statement {A} (f : Store → option (A * Store)) : Promise A :=
  λ c, match budget c with
       | Some 0 => (inl QueryFailedError, c)
       | b => match f (store c) with
              | Some (a, s') => (inr a, mkConn s' (Nat.pred <$> b))
              | None => (inl QueryFailedError, mkConn (store c) (Nat.pred <$> b))
              end
       end.

(** A statement that only reads. *)
Definition query {A} (f : Store → A) : Promise A :=
  statement (λ s, Some (f s, s)).

(** A statement that only writes. *)
Definition command (g : Store → Store) : Promise unit :=
  statement (λ s, Some (tt, g s)).

(** [em.transaction(body)]: the writes of a body that throws are rolled
    back. *)
Definition transaction {A} (body : Promise A) : Promise A :=
  λ c, match body c with
       | (inl e, c') => (inl e, mkConn (store c) (budget c'))
       | (inr a, c') => (inr a, c')
       end.

(** A promise that is started but not awaited: its rejection does not reach
    the caller. *)
Definition detached {A} (m : Promise A) : Promise unit :=
  λ c, ((inr tt), snd (m c)).

(** Running a method on a connection with a given statement budget, and on
    one that never fails. *)
Definition run_with {A} (b : option nat) (m : Promise A) (db : Store) : (Thrown + A) * Store :=
  let r := m (mkConn db b) in (r.1, store r.2).

Definition run {A} (m : Promise A) (db : Store) : (Thrown + A) * Store :=
  run_with None m db.

Definition threw {A} (code : ErrorCodes) (r : Thrown + A) : Prop :=
  match r with
  | inl (ResponseError c _) => c = code
  | _ => False
  end.

(** A method that throws no [ResponseError] of the given code, whatever the
    connection. *)
Definition neverThrows {A} (code : ErrorCodes) (m : Promise A) : Prop :=
  ∀ c, ¬ threw code (m c).1.

(** ** Repositories *)

Module Repository.
Section Repository.
Context {V : Type}.
Implicit Types (tbl : gmap string V) (P : string * V → Prop).

(** [repo.find(criteria)]: the rows that meet the criteria, in the order
    the table yields them. *)
Definition find P `{∀ r, Decision (P r)} tbl : list (string * V) :=
  filter P (map_to_list tbl).

(** [repo.findOne(criteria)] *)
Definition findOne P `{∀ r, Decision (P r)} tbl : option (string * V) :=
  head (find P tbl).

(** [repo.findOne(id)] *)
Definition findOneById (id : string) tbl : option (string * V) :=
  (λ v, (id, v)) <$> tbl !! id.

(** [repo.count(criteria)] *)
Definition count P `{∀ r, Decision (P r)} tbl : nat :=
  length (find P tbl).

(** [repo.save(entity)]: TypeORM inserts the entity when no row has its
    primary key and otherwise updates that row, skipping the properties
    that are [undefined]. [ins] is the row a fresh insert creates (column
    defaults for the undefined properties) and [upd] the effect of the
    defined properties on the row that is there. *)
Definition save (id : string) (ins : V) (upd : V → V) tbl : gmap string V :=
  <[id := match tbl !! id with Some old => upd old | None => ins end]> tbl.

(** [repo.save(entity)] of an entity all of whose properties are defined. *)
Definition saveEntity (e : string * V) tbl : gmap string V :=
  save e.1 e.2 (λ _, e.2) tbl.

(** [repo.insert(entity)]: refused when the primary key is taken. *)
Definition insert (id : string) (ins : V) tbl : option (gmap string V) :=
  match tbl !! id with
  | Some _ => None
  | None => Some (<[id := ins]> tbl)
  end.
(** [repo.findByIds(ids)]: the rows whose primary key is among [ids]. *)
Definition findByIds (ids : list string) tbl : list (string * V) :=
  filter (λ r, r.1 ∈ ids) (map_to_list tbl).
End Repository.
End Repository.

(** ** The data-access class *)

(** [Pick<Team, "name" | "slug">]; a property may be [undefined]. *)
Record TeamUpdate := mkTeamUpdate {
  update_name : option string;
  update_slug : option string
}.

(** [Partial<OrganizationSettings>] *)
Record OrganizationSettings := mkOrganizationSettings {
  workspaceSharingDisabled : option bool
}.

(** The values a call draws from its environment: [uuidv4()],
    [randomBytes(4).toString("hex")] and [new Date().toISOString()], in the
    order the method draws them. *)
Record CreateTeamEnv := mkCreateTeamEnv {
  ct_randomHex : string;
  ct_teamUuid : string;
  ct_now : string;
  ct_membershipUuid : string
}.

Record AddMemberEnv := mkAddMemberEnv {
  am_uuid : string;
  am_now : string
}.

Record ResetInviteEnv := mkResetInviteEnv {
  ri_invalidatedAt : string;
  ri_uuid : string;
  ri_now : string
}.

Module TeamDBImpl.
Section TeamDBImpl.

(** [slugify(name, { lower: true })] of the [slugify] package. *)
Variable slugify : string → string.

Definition findTeamById (teamId : string) : Promise (option (string * DBTeam.t)) :=
  query (λ s, Repository.findOne (λ r, r.1 = teamId ∧ DBTeam.live r.2) (d_b_team s)).

Definition set_name (n : string) (e : string * DBTeam.t) : string * DBTeam.t :=
  (e.1, DBTeam.mk n (DBTeam.slug e.2) (DBTeam.creationTime e.2)
          (DBTeam.markedDeleted e.2) (DBTeam.deleted e.2)).
Definition set_slug (sl : string) (e : string * DBTeam.t) : string * DBTeam.t :=
  (e.1, DBTeam.mk (DBTeam.name e.2) sl (DBTeam.creationTime e.2)
          (DBTeam.markedDeleted e.2) (DBTeam.deleted e.2)).
Definition set_markedDeleted (b : bool) (e : string * DBTeam.t) : string * DBTeam.t :=
  (e.1, DBTeam.mk (DBTeam.name e.2) (DBTeam.slug e.2) (DBTeam.creationTime e.2)
          b (DBTeam.deleted e.2)).

Definition updateTeam (teamId : string) (team : TeamUpdate) : Promise (string * DBTeam.t) :=
  let name := JS.and_trim (update_name team) in
  let slug := JS.and_trim (update_slug team) in
  if negb (JS.truthy_opt name) && negb (JS.truthy_opt slug) then
    reject (ResponseError BAD_REQUEST "No update provided")
  else
    transaction (
      await found <- query (λ s,
        Repository.findOne (λ r, r.1 = teamId ∧ DBTeam.live r.2) (d_b_team s));
      match found with
      | None => reject (ResponseError NOT_FOUND "Organization not found")
      | Some existingTeam =>
        if decide (Some (DBTeam.name existingTeam.2) = name
                   ∧ Some (DBTeam.slug existingTeam.2) = slug) then
          resolve existingTeam
        else
          await existingTeam <-
            match name with
            | Some n =>
              if JS.truthy n then
                if (32 <? String.length n)%nat then
                  reject (ResponseError INVALID_VALUE
                            "The name must be between 1 and 32 characters long")
                else resolve (set_name n existingTeam)
              else resolve existingTeam
            | None => resolve existingTeam
            end;
          await existingTeam <-
            match slug with
            | Some sl =>
              if JS.truthy sl && negb (bool_decide (DBTeam.slug existingTeam.2 = sl)) then
                if (63 <? String.length sl)%nat then
                  reject (ResponseError INVALID_VALUE
                            "Slug must be between 1 and 63 characters long")
                else if negb (JS.testSlugPattern sl) then
                  reject (ResponseError BAD_REQUEST
                            "Slug must contain only letters, or numbers")
                else
                  await anotherTeamWithThatSlug <- query (λ s,
                    Repository.findOne
                      (λ r, DBTeam.slug r.2 = sl ∧ DBTeam.live r.2) (d_b_team s));
                  match anotherTeamWithThatSlug with
                  | Some _ => reject (ResponseError INVALID_VALUE "Slug must be unique")
                  | None => resolve (set_slug sl existingTeam)
                  end
              else resolve existingTeam
            | None => resolve existingTeam
            end;
          await_ command (with_team (Repository.saveEntity existingTeam));
          resolve existingTeam
      end).

Definition createTeam (env : CreateTeamEnv) (userId name : string)
    : Promise (string * DBTeam.t) :=
  if negb (JS.truthy name) then
    reject (ResponseError BAD_REQUEST "Name cannot be empty")
  else
    let name := JS.trim name in
    if (String.length name <? 3)%nat then
      reject (ResponseError BAD_REQUEST
                "Please choose a name that is at least three characters long.")
    else if (64 <? String.length name)%nat then
      reject (ResponseError BAD_REQUEST
                "Please choose a name that is at most 64 characters long.")
    else
      let slug := slugify name in
      if (String.length slug <? 3)%nat then
        reject (ResponseError BAD_REQUEST
                  "Please choose a name that is at least three characters long.")
      else
        await team <- transaction (
          await existingTeam <- query (λ s,
            Repository.findOne
              (λ r, DBTeam.slug r.2 = slug ∧ DBTeam.live r.2) (d_b_team s));
          let slug :=
            if existingTeam is Some _ then slug ++ "-" ++ ct_randomHex env else slug in
          let creationTime := ct_now env in
          await_ command (with_team (Repository.save (ct_teamUuid env)
            (DBTeam.mk name slug creationTime false false)
            (λ old, DBTeam.mk name slug creationTime
                      (DBTeam.markedDeleted old) (DBTeam.deleted old))));
          resolve (ct_teamUuid env, DBTeam.mk name slug creationTime false false));
        await_ command (with_membership (Repository.save (ct_membershipUuid env)
          (DBTeamMembership.mk team.1 userId owner (DBTeam.creationTime team.2) false)
          (λ old, DBTeamMembership.mk team.1 userId owner (DBTeam.creationTime team.2)
                    (DBTeamMembership.deleted old))));
        resolve team.

Definition deleteOrgSettings (orgId : string) : Promise unit :=
  await orgSettings <- query (λ s,
    Repository.findOne (λ r, r.1 = orgId ∧ DBOrgSettings.deleted r.2 = false)
      (d_b_org_settings s));
  match orgSettings with
  | Some orgSettings =>
    let orgSettings :=
      (orgSettings.1,
       DBOrgSettings.mk (DBOrgSettings.workspaceSharingDisabled orgSettings.2) true) in
    detached (command (with_settings (Repository.saveEntity orgSettings)))
  | None => resolve tt
  end.

Definition deleteTeam (teamId : string) : Promise unit :=
  await team <- findTeamById teamId;
  match team with
  | Some team =>
    let team := set_markedDeleted true team in
    await_ command (with_team (Repository.saveEntity team));
    deleteOrgSettings teamId
  | None => resolve tt
  end.

Definition addMemberToTeam (env : AddMemberEnv) (userId teamId : string)
    : Promise string :=
  await team <- query (λ s, Repository.findOneById teamId (d_b_team s));
  match team with
  | None =>
    reject (ResponseError NOT_FOUND "An organization with this ID could not be found")
  | Some team =>
    if DBTeam.deleted team.2 then
      reject (ResponseError NOT_FOUND "An organization with this ID could not be found")
    else
      await membership <- query (λ s,
        Repository.findOne
          (λ r, DBTeamMembership.teamId r.2 = teamId
                ∧ DBTeamMembership.userId r.2 = userId
                ∧ DBTeamMembership.deleted r.2 = false)
          (d_b_team_membership s));
      match membership with
      | Some _ => resolve "already_member"
      | None =>
        await_ command (with_membership (Repository.save (am_uuid env)
          (DBTeamMembership.mk team.1 userId member (am_now env) false)
          (λ old, DBTeamMembership.mk team.1 userId member (am_now env)
                    (DBTeamMembership.deleted old))));
        resolve "added"
      end
  end.

Definition set_role (r : TeamMemberRole) (e : string * DBTeamMembership.t)
    : string * DBTeamMembership.t :=
  (e.1, DBTeamMembership.mk (DBTeamMembership.teamId e.2) (DBTeamMembership.userId e.2)
          r (DBTeamMembership.creationTime e.2) (DBTeamMembership.deleted e.2)).

Definition setTeamMemberRole (userId teamId : string) (role : TeamMemberRole)
    : Promise unit :=
  await team <- query (λ s, Repository.findOneById teamId (d_b_team s));
  match team with
  | None =>
    reject (ResponseError NOT_FOUND "An organization with this ID could not be found")
  | Some team =>
    if DBTeam.deleted team.2 then
      reject (ResponseError NOT_FOUND "An organization with this ID could not be found")
    else
      await_
        (if bool_decide (role ≠ owner) then
           await ownerCount <- query (λ s,
             Repository.count
               (λ r, DBTeamMembership.teamId r.2 = teamId
                     ∧ DBTeamMembership.role r.2 = owner
                     ∧ DBTeamMembership.deleted r.2 = false)
               (d_b_team_membership s));
           if (ownerCount <=? 1)%nat then
             reject (ResponseError CONFLICT "An organization must retain at least one owner")
           else resolve tt
         else resolve tt);
      await membership <- query (λ s,
        Repository.findOne
          (λ r, DBTeamMembership.teamId r.2 = teamId
                ∧ DBTeamMembership.userId r.2 = userId
                ∧ DBTeamMembership.deleted r.2 = false)
          (d_b_team_membership s));
      match membership with
      | None =>
        reject (ResponseError NOT_FOUND
                  "The user is not currently a member of this organization")
      | Some membership =>
        command (with_membership (Repository.saveEntity (set_role role membership)))
      end
  end.

(** The filter of [findGenericInviteByTeamId]: an empty [invalidationTime]
    and no [invitedEmail]. *)
Definition isValidGeneric (i : DBTeamMembershipInvite.t) : Prop :=
  DBTeamMembershipInvite.invalidationTime i = EmptyString
  ∧ JS.truthy_opt (DBTeamMembershipInvite.invitedEmail i) = false.

Global Instance isValidGeneric_dec i : Decision (isValidGeneric i).
Proof. unfold isValidGeneric. apply _. Defined.

Definition findGenericInviteByTeamId (teamId : string)
    : Promise (option (string * DBTeamMembershipInvite.t)) :=
  await all <- query (λ s,
    Repository.find (λ r, DBTeamMembershipInvite.teamId r.2 = teamId)
      (d_b_team_membership_invite s));
  resolve (head (filter (λ i, isValidGeneric i.2) all)).

Definition set_invalidationTime (t : string) (e : string * DBTeamMembershipInvite.t)
    : string * DBTeamMembershipInvite.t :=
  (e.1, DBTeamMembershipInvite.mk (DBTeamMembershipInvite.teamId e.2)
          (DBTeamMembershipInvite.role e.2) (DBTeamMembershipInvite.creationTime e.2)
          t (DBTeamMembershipInvite.invitedEmail e.2)).

Definition resetGenericInvite (env : ResetInviteEnv) (teamId : string)
    : Promise (string * DBTeamMembershipInvite.t) :=
  await invite <- findGenericInviteByTeamId teamId;
  await_
    match invite with
    | Some invite =>
      if bool_decide (DBTeamMembershipInvite.invalidationTime invite.2 = EmptyString) then
        command (with_invite
          (Repository.saveEntity (set_invalidationTime (ri_invalidatedAt env) invite)))
      else resolve tt
    | None => resolve tt
    end;
  let newInvite := DBTeamMembershipInvite.mk teamId member (ri_now env) EmptyString None in
  await_ command (with_invite (Repository.save (ri_uuid env) newInvite
    (λ old, DBTeamMembershipInvite.mk teamId member (ri_now env) EmptyString
              (DBTeamMembershipInvite.invitedEmail old))));
  resolve (ri_uuid env, newInvite).

Definition setOrgSettings (orgId : string) (settings : OrganizationSettings)
    : Promise unit :=
  await team <- query (λ s,
    Repository.findOne (λ r, r.1 = orgId ∧ DBOrgSettings.deleted r.2 = false)
      (d_b_org_settings s));
  match team with
  | None =>
    statement (λ s,
      db' ← Repository.insert orgId
              (DBOrgSettings.mk (default false (workspaceSharingDisabled settings)) false)
              (d_b_org_settings s);
      Some (tt, with_settings (λ _, db') s))
  | Some team =>
    (* the loaded entity after the assignment: the flag may now be undefined *)
    let assigned := workspaceSharingDisabled settings in
    detached (command (with_settings (Repository.save team.1
      (DBOrgSettings.mk (default false assigned) (DBOrgSettings.deleted team.2))
      (λ old, DBOrgSettings.mk
                (default (DBOrgSettings.workspaceSharingDisabled old) assigned)
                (DBOrgSettings.deleted team.2)))))
  end.


Definition findTeamMembership (userId teamId : string)
    : Promise (option (string * DBTeamMembership.t)) :=
  query (λ s,
    Repository.findOne
      (λ r, DBTeamMembership.userId r.2 = userId
            ∧ DBTeamMembership.teamId r.2 = teamId
            ∧ DBTeamMembership.deleted r.2 = false)
      (d_b_team_membership s)).

Definition findTeamsByUser (userId : string) : Promise (list (string * DBTeam.t)) :=
  await memberships <- query (λ s,
    Repository.find
      (λ r, DBTeamMembership.userId r.2 = userId ∧ DBTeamMembership.deleted r.2 = false)
      (d_b_team_membership s));
  await teams <- query (λ s,
    Repository.findByIds (map (λ m, DBTeamMembership.teamId m.2) memberships) (d_b_team s));
  resolve (filter (λ t, DBTeam.markedDeleted t.2 = false) teams).

Definition set_deleted (b : bool) (e : string * DBTeamMembership.t)
    : string * DBTeamMembership.t :=
  (e.1, DBTeamMembership.mk (DBTeamMembership.teamId e.2) (DBTeamMembership.userId e.2)
          (DBTeamMembership.role e.2) (DBTeamMembership.creationTime e.2) b).

Definition removeMemberFromTeam (userId teamId : string) : Promise unit :=
  await team <- query (λ s, Repository.findOneById teamId (d_b_team s));
  match team with
  | None =>
    reject (ResponseError NOT_FOUND "An organization with this ID could not be found")
  | Some team =>
    if DBTeam.deleted team.2 then
      reject (ResponseError NOT_FOUND "An organization with this ID could not be found")
    else
      await membership <- query (λ s,
        Repository.findOne
          (λ r, DBTeamMembership.teamId r.2 = teamId
                ∧ DBTeamMembership.userId r.2 = userId
                ∧ DBTeamMembership.deleted r.2 = false)
          (d_b_team_membership s));
      match membership with
      | None =>
        reject (ResponseError BAD_REQUEST
                  "The given user is not currently a member of this organization or does not exist.")
      | Some membership =>
        command (with_membership (Repository.saveEntity (set_deleted true membership)))
      end
  end.

Definition findTeamMembershipInviteById (inviteId : string)
    : Promise (string * DBTeamMembershipInvite.t) :=
  await invite <- query (λ s,
    Repository.findOneById inviteId (d_b_team_membership_invite s));
  match invite with
  | None => reject (ResponseError NOT_FOUND "No invite found for the given ID.")
  | Some invite => resolve invite
  end.


(** The table of users, which this class only reads, and
    [User.getPrimaryEmail]. *)
Variable d_b_user : gmap string DBUser.t.
Variable getPrimaryEmail : string * DBUser.t → option string.

(** The comparator of [findMembersByTeam]. *)
Definition byMemberSince (a b : TeamMemberInfo) : Z :=
  if String.ltb (info_memberSince a) (info_memberSince b) then 1%Z
  else if String.eqb (info_memberSince a) (info_memberSince b) then 0%Z
  else (-1)%Z.

(** The info of a user, from the first membership of the list that is the
    user's. The source asserts that there is one; every user that
    [findByIds] returns for the user ids of the memberships has one. *)
Definition memberInfo (memberships : list (string * DBTeamMembership.t))
    (u : string * DBUser.t) : option TeamMemberInfo :=
  (λ m : string * DBTeamMembership.t,
     mkTeamMemberInfo u.1 (JS.or_else (DBUser.fullName u.2) (DBUser.name u.2))
       (getPrimaryEmail u) (DBUser.avatarUrl u.2)
       (DBTeamMembership.role m.2) (DBTeamMembership.creationTime m.2))
  <$> List.find (λ m, bool_decide (DBTeamMembership.userId m.2 = u.1)) memberships.

Definition findMembersByTeam (teamId : string) : Promise (list TeamMemberInfo) :=
  await memberships <- query (λ s,
    Repository.find
      (λ r, DBTeamMembership.teamId r.2 = teamId ∧ DBTeamMembership.deleted r.2 = false)
      (d_b_team_membership s));
  await users <- query (λ _,
    Repository.findByIds (map (λ m, DBTeamMembership.userId m.2) memberships) d_b_user);
  let infos := omap (memberInfo memberships) users in
  resolve (JS.sort byMemberSince infos).

(** The loop of [findTeamsByUserAsSoleOwner] over the teams of the user. *)
Fixpoint soleOwnedAmong (userId : string) (userTeams soleOwnedTeams : list (string * DBTeam.t))
    : Promise (list (string * DBTeam.t)) :=
  match userTeams with
  | [] => resolve soleOwnedTeams
  | team :: rest =>
    await memberships <- findMembersByTeam team.1;
    let ownerships := filter (λ m, info_role m = owner) memberships in
    if bool_decide (length ownerships = 1
                    ∧ info_userId <$> head ownerships = Some userId) then
      soleOwnedAmong userId rest (soleOwnedTeams ++ [team])%list
    else soleOwnedAmong userId rest soleOwnedTeams
  end.

Definition findTeamsByUserAsSoleOwner (userId : string) : Promise (list (string * DBTeam.t)) :=
  await userTeams <- findTeamsByUser userId;
  soleOwnedAmong userId userTeams [].

End TeamDBImpl.
End TeamDBImpl.

(** ** The SSO client configuration store (Go) *)

Module OIDC.

(** [uuid.UUID] is an array of 16 bytes, read here as the number they
    spell; [uuid.Nil] is the array of zeros. *)
Definition UUID := N.
Definition uuid_Nil : UUID := 0%N.

Record OIDCSpec := mkOIDCSpec {
  ClientID : string;
  ClientSecret : string;
  RedirectURL : string;
  Scopes : list string
}.

(** [time.Time] as a number of microseconds; the zero value is [0]. *)
Record OIDCClientConfig := mkOIDCClientConfig {
  ID : UUID;
  OrganizationID : UUID;
  Issuer : string;
  Data : OIDCSpec;
  Active : bool;
  LastModified : Z
}.

(** The zero value [OIDCClientConfig{}]. *)
Definition zero : OIDCClientConfig :=
  mkOIDCClientConfig uuid_Nil uuid_Nil EmptyString (mkOIDCSpec EmptyString EmptyString EmptyString []) false 0%Z.

(** A row of [d_b_oidc_client_config] under its primary key [id]. *)
Record Row := mkRow {
  organizationId : UUID;
  issuer : string;
  data : OIDCSpec;
  active : bool;
  lastModified : Z;
  deleted : bool
}.

(** Go errors: [errors.New(text)] and [fmt.Errorf] wrapping the error of
    the database. *)
Inductive error :=
| errors_New (text : string)
| Errorf_wrap (text : string).

(** [conn.Create(&cfg)]: GORM inserts the struct; a field tagged with a
    default is left to the database when it holds its zero value
    ([active] then becomes 0, [_lastModified] the current time), and the
    column [deleted], which the struct does not carry, takes its default 0.
    The database refuses a primary key that is taken. *)
Definition Create (now : Z) (cfg : OIDCClientConfig) (conn : gmap UUID Row)
    : option (gmap UUID Row) :=
  match conn !! ID cfg with
  | Some _ => None
  | None =>
    Some (<[ID cfg :=
             mkRow (OrganizationID cfg) (Issuer cfg) (Data cfg)
               (Active cfg)
               (if bool_decide (LastModified cfg = 0%Z) then now else LastModified cfg)
               false]> conn)
  end.

Definition CreateOIDCClientConfig (now : Z) (conn : gmap UUID Row) (cfg : OIDCClientConfig)
    : (error + OIDCClientConfig) * gmap UUID Row :=
  if bool_decide (ID cfg = uuid_Nil) then
    (inl (errors_New "id must be set"), conn)
  else if bool_decide (Issuer cfg = EmptyString) then
    (inl (errors_New "issuer must be set"), conn)
  else
    match Create now cfg conn with
    | None => (inl (Errorf_wrap "failed to create oidc client config"), conn)
    | Some conn' => (inr cfg, conn')
    end.

(** The errors with which [CreateOIDCClientConfig] turns down its
    argument. *)
Definition invalidArgument (r : error + OIDCClientConfig) : Prop :=
  match r with
  | inl (errors_New _) => True
  | _ => False
  end.

(** *** Reading, listing, deleting and activating *)

(** The errors of the functions below: [fmt.Errorf] (or [errors.New]) with
    no wrapped error, and [fmt.Errorf("...: %w", ErrorNotFound)]. *)
Inductive failure :=
| Errorf (format : string)
| Errorf_w_ErrorNotFound (format : string).

(** [errors.Is(err, ErrorNotFound)] *)
Definition errors_Is_ErrorNotFound (e : failure) : bool :=
  match e with Errorf_w_ErrorNotFound _ => true | Errorf _ => false end.

(** A row scanned into the struct. *)
Definition toConfig (r : UUID * Row) : OIDCClientConfig :=
  mkOIDCClientConfig r.1 (organizationId r.2) (issuer r.2) (data r.2) (active r.2)
    (lastModified r.2).

(** [ORDER BY id]: the identifiers are stored in their canonical text form,
    whose order is the order of the numbers they spell. *)
Definition byId (a b : UUID * Row) : Prop := (a.1 ≤ b.1)%N.

Global Instance byId_dec : RelDecision byId.
Proof. intros a b. unfold byId. apply _. Defined.

(** The rows a chain of [Where] clauses selects. *)
Definition Where (P : UUID * Row → Prop) `{∀ r, Decision (P r)} (conn : gmap UUID Row)
    : list (UUID * Row) :=
  filter P (map_to_list conn).

(** [Order("id").Find(&results)] *)
Definition Find_ordered (P : UUID * Row → Prop) `{∀ r, Decision (P r)} (conn : gmap UUID Row)
    : list (UUID * Row) :=
  merge_sort byId (Where P conn).

(** [First(&config)]: the selected row with the least primary key;
    [None] stands for [gorm.ErrRecordNotFound]. *)
Definition First (P : UUID * Row → Prop) `{∀ r, Decision (P r)} (conn : gmap UUID Row)
    : option (UUID * Row) :=
  head (Find_ordered P conn).

(** [Update(column, value)] on the selected rows: the table afterwards and
    [RowsAffected]. A row the statements below select is always changed by
    the update, so the rows affected are the rows selected. *)
Definition Update (P : UUID * Row → Prop) `{∀ r, Decision (P r)} (f : Row → Row)
    (conn : gmap UUID Row) : gmap UUID Row * nat :=
  (map_imap (λ k r, Some (if decide (P (k, r)) then f r else r)) conn,
   length (Where P conn)).

Definition set_deleted (r : Row) : Row :=
  mkRow (organizationId r) (issuer r) (data r) (active r) (lastModified r) true.

Definition set_active (r : Row) : Row :=
  mkRow (organizationId r) (issuer r) (data r) true (lastModified r) (deleted r).

Definition GetOIDCClientConfig (conn : gmap UUID Row) (id : UUID)
    : failure + OIDCClientConfig :=
  if bool_decide (id = uuid_Nil) then
    inl (Errorf "OIDC Client Config ID is a required argument")
  else
    match First (λ r, r.1 = id ∧ deleted r.2 = false) conn with
    | None => inl (Errorf_w_ErrorNotFound "OIDC Client Config with ID %s does not exist: %w")
    | Some config => inr (toConfig config)
    end.

Definition GetOIDCClientConfigForOrganization (conn : gmap UUID Row) (id organizationID : UUID)
    : failure + OIDCClientConfig :=
  if bool_decide (id = uuid_Nil) then
    inl (Errorf "OIDC Client Config ID is a required argument")
  else if bool_decide (organizationID = uuid_Nil) then
    inl (Errorf "organization id is a required argument")
  else
    match First (λ r, r.1 = id ∧ organizationId r.2 = organizationID ∧ deleted r.2 = false)
            conn with
    | None =>
      inl (Errorf_w_ErrorNotFound
             "OIDC Client Config with ID %s for Organization ID %s does not exist: %w")
    | Some config => inr (toConfig config)
    end.

Definition ListOIDCClientConfigsForOrganization (conn : gmap UUID Row) (organizationID : UUID)
    : failure + list OIDCClientConfig :=
  if bool_decide (organizationID = uuid_Nil) then
    inl (Errorf "organization ID is a required argument")
  else
    inr (toConfig <$>
           Find_ordered (λ r, organizationId r.2 = organizationID ∧ deleted r.2 = false) conn).

Definition DeleteOIDCClientConfig (conn : gmap UUID Row) (id organizationID : UUID)
    : option failure * gmap UUID Row :=
  if bool_decide (id = uuid_Nil) then
    (Some (Errorf "id is a required argument"), conn)
  else if bool_decide (organizationID = uuid_Nil) then
    (Some (Errorf "organization id is a required argument"), conn)
  else
    let tx := Update (λ r, r.1 = id ∧ organizationId r.2 = organizationID
                            ∧ deleted r.2 = false) set_deleted conn in
    if bool_decide (tx.2 = 0) then
      (Some (Errorf_w_ErrorNotFound
               "oidc client config ID: %s for organization ID: %s does not exist: %w"),
       tx.1)
    else (None, tx.1).

Definition ActivateClientConfig (conn : gmap UUID Row) (id : UUID)
    : option failure * gmap UUID Row :=
  match GetOIDCClientConfig conn id with
  | inl err => (Some err, conn)
  | inr _ => (None, (Update (λ r, r.1 = id) set_active conn).1)
  end.

Section BySlug.

(** [id.String()], and the table [d_b_team] the query joins with. *)
Variable uuid_String : UUID → string.
Variable d_b_team : gmap string DBTeam.t.

(** The join pairs a configuration with the organization whose [id] is its
    [organizationId]; the clauses keep the pairs of the given slug whose
    configuration is not deleted. *)
Definition GetOIDCClientConfigByOrgSlug (conn : gmap UUID Row) (slug : string)
    : failure + OIDCClientConfig :=
  if bool_decide (slug = EmptyString) then
    inl (Errorf "slug is a required argument")
  else
    match First (λ r, DBTeam.slug <$> d_b_team !! uuid_String (organizationId r.2) = Some slug
                      ∧ deleted r.2 = false) conn with
    | None => inl (Errorf "failed to get oidc client config by org slug (slug: %s): %v")
    | Some config => inr (toConfig config)
    end.

End BySlug.

End OIDC.

(** ** Quantities the statements below speak about *)

(** The count [setTeamMemberRole] takes: the memberships of the team that
    are owners and not deleted. *)
Definition liveOwnerCount (teamId : string) (db : Store) : nat :=
  Repository.count
    (λ r, DBTeamMembership.teamId r.2 = teamId
          ∧ DBTeamMembership.role r.2 = owner
          ∧ DBTeamMembership.deleted r.2 = false)
    (d_b_team_membership db).

(** The count in the words of the specification: the live owners of the
    team, the row of the target user left out. *)
Definition spec_liveOwnerCountExcluding (userId teamId : string) (db : Store) : nat :=
  Repository.count
    (λ r, DBTeamMembership.teamId r.2 = teamId
          ∧ DBTeamMembership.role r.2 = owner
          ∧ DBTeamMembership.deleted r.2 = false
          ∧ DBTeamMembership.userId r.2 ≠ userId)
    (d_b_team_membership db).

(** The live membership rows of a user in a team. *)
Definition liveMemberships (userId teamId : string) (db : Store)
    : list (string * DBTeamMembership.t) :=
  Repository.find
    (λ r, DBTeamMembership.teamId r.2 = teamId
          ∧ DBTeamMembership.userId r.2 = userId
          ∧ DBTeamMembership.deleted r.2 = false)
    (d_b_team_membership db).

(** The generic invites of a team that are valid. *)
Definition validGenericInvites (teamId : string) (db : Store)
    : list (string * DBTeamMembershipInvite.t) :=
  Repository.find
    (λ r, DBTeamMembershipInvite.teamId r.2 = teamId ∧ TeamDBImpl.isValidGeneric r.2)
    (d_b_team_membership_invite db).

(** [reset] called once per environment, in sequence. *)
Definition resetGenericInvites (envs : list ResetInviteEnv) (teamId : string) (db : Store)
    : Store :=
  foldl (λ db env, (run (TeamDBImpl.resetGenericInvite env teamId) db).2) db envs.

(** A name [createTeam] accepts. *)
Definition validName (slugify : string → string) (name : string) : Prop :=
  JS.truthy name = true
  ∧ 3 ≤ String.length (JS.trim name) ≤ 64
  ∧ 3 ≤ String.length (slugify (JS.trim name)).

(** ** Notions for the generic invites *)

(** The row [resetGenericInvite] writes for the new invite. *)
Definition freshInvite (env : ResetInviteEnv) (teamId : string) : DBTeamMembershipInvite.t :=
  DBTeamMembershipInvite.mk teamId member (ri_now env) EmptyString None.

(** The row under [k] is a valid generic invite of the team. *)
Definition validAt (tbl : gmap string DBTeamMembershipInvite.t) (teamId k : string) : Prop :=
  ∃ i, tbl !! k = Some i ∧ DBTeamMembershipInvite.teamId i = teamId
       ∧ TeamDBImpl.isValidGeneric i.

(** The invariant of the invite table: a team has at most one valid generic
    invite. *)
Definition atMostOneValid (tbl : gmap string DBTeamMembershipInvite.t) (teamId : string) : Prop :=
  ∀ k1 k2, validAt tbl teamId k1 → validAt tbl teamId k2 → k1 = k2.

(** What one call of [resetGenericInvite] does to the invite table. *)
Record stepped (env : ResetInviteEnv) (teamId : string)
    (tbl tbl' : gmap string DBTeamMembershipInvite.t) : Prop := mkStepped {
  stepped_new : tbl' !! ri_uuid env = Some (freshInvite env teamId);
  stepped_only : ∀ k, validAt tbl' teamId k → k = ri_uuid env;
  stepped_kept : ∀ k i, tbl !! k = Some i →
    ∃ i', tbl' !! k = Some i'
          ∧ DBTeamMembershipInvite.teamId i' = DBTeamMembershipInvite.teamId i
          ∧ DBTeamMembershipInvite.invitedEmail i' = DBTeamMembershipInvite.invitedEmail i;
  stepped_absent : ∀ k, k ≠ ri_uuid env → tbl !! k = None → tbl' !! k = None;
  stepped_size : size tbl' = S (size tbl)
}.

(** What a sequence of calls does to it. *)
Record resetsFacts (teamId : string) (envs : list ResetInviteEnv) (db db' : Store) : Prop :=
  mkResetsFacts {
  resets_atMostOne : atMostOneValid (d_b_team_membership_invite db') teamId;
  resets_last : ∀ l, last envs = Some l →
    d_b_team_membership_invite db' !! ri_uuid l = Some (freshInvite l teamId)
    ∧ ∀ k, validAt (d_b_team_membership_invite db') teamId k → k = ri_uuid l;
  resets_kept : ∀ k i, d_b_team_membership_invite db !! k = Some i →
    ∃ i', d_b_team_membership_invite db' !! k = Some i'
          ∧ DBTeamMembershipInvite.teamId i' = DBTeamMembershipInvite.teamId i
          ∧ DBTeamMembershipInvite.invitedEmail i' = DBTeamMembershipInvite.invitedEmail i;
  resets_created : ∀ e, e ∈ envs →
    ∃ i, d_b_team_membership_invite db' !! ri_uuid e = Some i
         ∧ DBTeamMembershipInvite.teamId i = teamId
         ∧ DBTeamMembershipInvite.invitedEmail i = None;
  resets_size :
    size (d_b_team_membership_invite db') = size (d_b_team_membership_invite db) + length envs
}.

(** ** Notions for the organization table *)

(** The record [updateTeam] stores for a request: the trimmed name and slug
    where the request supplies them, the stored ones otherwise. *)
Definition renamed (name slug : option string) (existing : DBTeam.t) : DBTeam.t :=
  DBTeam.mk
    (if JS.truthy_opt name then default EmptyString name else DBTeam.name existing)
    (if JS.truthy_opt slug then default EmptyString slug else DBTeam.slug existing)
    (DBTeam.creationTime existing) (DBTeam.markedDeleted existing) (DBTeam.deleted existing).

(** No two live organizations share a slug. *)
Definition uniqueLiveSlugs (tbl : gmap string DBTeam.t) : Prop :=
  ∀ k1 k2 t1 t2,
    tbl !! k1 = Some t1 → tbl !! k2 = Some t2 →
    DBTeam.live t1 → DBTeam.live t2 → DBTeam.slug t1 = DBTeam.slug t2 → k1 = k2.

(** ** Sample databases *)

Module Sample.

Definition acme : DBTeam.t := DBTeam.mk "Acme" "acme" "2023-01-01T00:00:00.000Z" false false.
Definition beta : DBTeam.t := DBTeam.mk "Beta" "beta" "2023-01-02T00:00:00.000Z" false false.

Definition teams : gmap string DBTeam.t := {[ "t1" := acme; "t2" := beta ]}.

(** [u1] owns [t1], [u2] is a plain member of it. *)
Definition oneOwner : Store :=
  mkStore teams
    {[ "m1" := DBTeamMembership.mk "t1" "u1" owner "2023-01-01T00:00:00.000Z" false;
       "m2" := DBTeamMembership.mk "t1" "u2" member "2023-01-03T00:00:00.000Z" false ]}
    ∅
    {[ "t1" := DBOrgSettings.mk true false ]}.

(** [u1] and [u2] both own [t1]. *)
Definition twoOwners : Store :=
  mkStore teams
    {[ "m1" := DBTeamMembership.mk "t1" "u1" owner "2023-01-01T00:00:00.000Z" false;
       "m2" := DBTeamMembership.mk "t1" "u2" owner "2023-01-03T00:00:00.000Z" false ]}
    ∅ ∅.

(** A stand-in for [slugify]: lower-case letters, a dash for a space. *)
Definition slugChar (c : ascii) : ascii :=
  let n := nat_of_ascii c in
  if Nat.eqb n 32 then ascii_of_nat 45
  else if Nat.leb 65 n && Nat.leb n 90 then ascii_of_nat (n + 32)
  else c.
Definition slugify (s : string) : string :=
  string_of_list_ascii (map slugChar (list_ascii_of_string s)).

Definition createEnv : CreateTeamEnv :=
  mkCreateTeamEnv "9f3a01bc" "t9" "2023-02-01T00:00:00.000Z" "m9".
Definition addEnv : AddMemberEnv := mkAddMemberEnv "m3" "2023-02-02T00:00:00.000Z".
Definition addEnv' : AddMemberEnv := mkAddMemberEnv "m4" "2023-02-03T00:00:00.000Z".
Definition reset1 : ResetInviteEnv :=
  mkResetInviteEnv "2023-03-01T00:00:00.000Z" "i1" "2023-03-01T00:00:00.001Z".
Definition reset2 : ResetInviteEnv :=
  mkResetInviteEnv "2023-03-02T00:00:00.000Z" "i2" "2023-03-02T00:00:00.001Z".
Definition reset3 : ResetInviteEnv :=
  mkResetInviteEnv "2023-03-03T00:00:00.000Z" "i3" "2023-03-03T00:00:00.001Z".

Definition ssoConfig : OIDC.OIDCClientConfig :=
  OIDC.mkOIDCClientConfig 7%N 1%N "https://idp.example.com"
    (OIDC.mkOIDCSpec "client" "secret" "https://example.com/callback" ["openid"])
    true 0%Z.

End Sample.

(** * Facts about repositories *)

Section ListFacts.
Context {A : Type} (P : A → Prop) `{∀ x, Decision (P x)}.

Lemma head_filter_None (l : list A) :
  head (filter P l) = None ↔ ∀ x, x ∈ l → ¬ P x.
Proof.
  rewrite head_None. split.
  - intros Hnil x Hx HP.
    assert (x ∈ filter P l) as Hin by (apply list_elem_of_filter; done).
    rewrite Hnil in Hin. by apply not_elem_of_nil in Hin.
  - intros Hall. destruct (filter P l) as [|y l'] eqn:E; [done|].
    assert (y ∈ filter P l) as Hin by (rewrite E; left).
    apply list_elem_of_filter in Hin as [HP Hy]. by destruct (Hall y Hy).
Qed.

Lemma head_filter_Some (l : list A) (x : A) :
  head (filter P l) = Some x → P x ∧ x ∈ l.
Proof.
  intros Hhd. apply head_Some_elem_of in Hhd.
  by apply list_elem_of_filter in Hhd.
Qed.

Lemma NoDup_all_equal (l : list A) (x : A) :
  NoDup l → x ∈ l → (∀ y, y ∈ l → y = x) → l = [x].
Proof.
  intros Hnd Hx Hall. destruct l as [|a l]; [by apply not_elem_of_nil in Hx|].
  assert (a = x) as -> by (apply Hall; left).
  destruct l as [|b l]; [done|].
  assert (b = x) as -> by (apply Hall; right; left).
  apply NoDup_cons in Hnd as [Hnot _]. destruct Hnot. left.
Qed.
End ListFacts.

Section RepositoryFacts.
Context {V : Type}.
Implicit Types (tbl : gmap string V) (P : string * V → Prop).

Lemma elem_of_find P `{∀ r, Decision (P r)} tbl k v :
  (k, v) ∈ Repository.find P tbl ↔ P (k, v) ∧ tbl !! k = Some v.
Proof.
  unfold Repository.find. rewrite list_elem_of_filter.
  by rewrite elem_of_map_to_list.
Qed.

Lemma NoDup_find P `{∀ r, Decision (P r)} tbl : NoDup (Repository.find P tbl).
Proof. apply NoDup_filter, NoDup_map_to_list. Qed.

Lemma findOne_None P `{∀ r, Decision (P r)} tbl :
  Repository.findOne P tbl = None ↔ ∀ k v, tbl !! k = Some v → ¬ P (k, v).
Proof.
  unfold Repository.findOne, Repository.find. rewrite head_filter_None. split.
  - intros Hall k v Hkv. apply Hall. by apply elem_of_map_to_list.
  - intros Hall [k v] Hin. apply Hall. by apply elem_of_map_to_list.
Qed.

Lemma findOne_Some P `{∀ r, Decision (P r)} tbl k v :
  Repository.findOne P tbl = Some (k, v) → P (k, v) ∧ tbl !! k = Some v.
Proof.
  unfold Repository.findOne, Repository.find. intros Hhd.
  apply head_filter_Some in Hhd as [HP Hin].
  by apply elem_of_map_to_list in Hin.
Qed.

(** A look-up whose criteria fix the primary key reads that one row. *)
Lemma findOne_by_key P `{∀ r, Decision (P r)} (Q : V → Prop) `{∀ v, Decision (Q v)}
    (id : string) tbl :
  (∀ r, P r ↔ r.1 = id ∧ Q r.2) →
  Repository.findOne P tbl =
    match tbl !! id with
    | Some v => if decide (Q v) then Some (id, v) else None
    | None => None
    end.
Proof.
  intros HP. destruct (tbl !! id) as [v|] eqn:Hid.
  - destruct (decide (Q v)) as [HQ|HQ].
    + destruct (Repository.findOne P tbl) as [[k' v']|] eqn:E.
      * apply findOne_Some in E as [HP' Hk']. apply HP in HP' as [Hk _].
        simpl in Hk. subst k'. congruence.
      * rewrite findOne_None in E. destruct (E id v Hid). by apply HP.
    + apply findOne_None. intros k' v' Hk' HP'. apply HP in HP' as [Hk HQ'].
      simpl in *. subst k'. congruence.
  - apply findOne_None. intros k' v' Hk' HP'. apply HP in HP' as [Hk _].
    simpl in Hk. subst k'. congruence.
Qed.

(** Inserting the only row that meets the criteria. *)
Lemma find_insert_only P `{∀ r, Decision (P r)} tbl k v :
  tbl !! k = None → P (k, v) →
  (∀ k' v', tbl !! k' = Some v' → ¬ P (k', v')) →
  Repository.find P (<[k := v]> tbl) = [(k, v)].
Proof.
  intros Hk HP Hnone. apply NoDup_all_equal.
  - apply NoDup_find.
  - apply elem_of_find. split; [done|]. apply lookup_insert_eq.
  - intros [k' v'] Hin. apply elem_of_find in Hin as [HP' Hl].
    destruct (decide (k = k')) as [->|Hne].
    + rewrite lookup_insert_eq in Hl. congruence.
    + rewrite lookup_insert_ne in Hl by done. by destruct (Hnone k' v').
Qed.
End RepositoryFacts.

(** * The claims *)

Ltac unfold_run :=
  unfold run, run_with, then_, query, command, statement, resolve, reject,
    transaction, detached; simpl.

(** ** Changing a role *)

(** C1 (as the code has it). For every organization, user and non-owner
    role, [setTeamMemberRole] fails with [CONFLICT] if and only if the
    organization exists, is not deleted, and the number of its live owner
    memberships, the row of the target user included, is at most 1. *)
Theorem C1_setRole_conflict_iff (db : Store) (userId teamId : string) (role : TeamMemberRole) :
  role ≠ owner →
  threw CONFLICT (run (TeamDBImpl.setTeamMemberRole userId teamId role) db).1
  ↔ (∃ team, d_b_team db !! teamId = Some team ∧ DBTeam.deleted team = false)
    ∧ liveOwnerCount teamId db ≤ 1.
Proof.
  intros Hrole. unfold TeamDBImpl.setTeamMemberRole, liveOwnerCount.
  unfold_run. unfold Repository.findOneById.
  destruct (d_b_team db !! teamId) as [team|] eqn:Hteam; simpl.
  2: { split; [done|]. by intros [[team [? _]] _]. }
  destruct (DBTeam.deleted team) eqn:Hdel; simpl.
  { split; [done|]. intros [[team' [Ht' Hd']] _]. congruence. }
  rewrite bool_decide_eq_true_2 by done. simpl.
  match goal with |- context [Nat.leb ?n 1] => destruct (Nat.leb n 1) eqn:Hle end; simpl.
  - apply Nat.leb_le in Hle. split; [|done]. intros _. split; [|done]. by exists team.
  - apply Nat.leb_gt in Hle.
    match goal with |- context [Repository.findOne ?P ?t] =>
      destruct (Repository.findOne P t) as [m|] end; simpl.
    + split; [done|]. intros [_ Hc]. lia.
    + split; [done|]. intros [_ Hc]. lia.
Qed.

Lemma C1_setRole_conflict_iff_witness :
  threw CONFLICT (run (TeamDBImpl.setTeamMemberRole "u2" "t1" member) Sample.oneOwner).1
  ↔ (∃ team, d_b_team Sample.oneOwner !! "t1" = Some team ∧ DBTeam.deleted team = false)
    ∧ liveOwnerCount "t1" Sample.oneOwner ≤ 1.
Proof. apply (C1_setRole_conflict_iff Sample.oneOwner "u2" "t1" member). discriminate. Defined.

(** C1 fails as stated. Demoting the plain member [u2] of an organization
    with exactly one live owner is turned down with [CONFLICT]; and with two
    live owners, the count without the target's row is 1, yet demoting one of
    them is not turned down. *)
Lemma C1_counterexample :
  (liveOwnerCount "t1" Sample.oneOwner = 1
   ∧ liveMemberships "u2" "t1" Sample.oneOwner
     = [("m2", DBTeamMembership.mk "t1" "u2" member "2023-01-03T00:00:00.000Z" false)]
   ∧ (run (TeamDBImpl.setTeamMemberRole "u2" "t1" member) Sample.oneOwner).1
     = inl (ResponseError CONFLICT "An organization must retain at least one owner"))
  ∧ (spec_liveOwnerCountExcluding "u1" "t1" Sample.twoOwners = 1
     ∧ (run (TeamDBImpl.setTeamMemberRole "u1" "t1" member) Sample.twoOwners).1 = inr tt).
Proof. vm_compute. done. Qed.

(** ** Soft-deleting an organization *)

Lemma findTeamById_spec (teamId : string) (tbl : gmap string DBTeam.t) :
  Repository.findOne (λ r, r.1 = teamId ∧ DBTeam.live r.2) tbl =
    match tbl !! teamId with
    | Some v => if decide (DBTeam.live v) then Some (teamId, v) else None
    | None => None
    end.
Proof. by apply findOne_by_key. Qed.

Lemma run_deleteTeam_absent (db : Store) (teamId : string) :
  (d_b_team db !! teamId = None
   ∨ ∃ team, d_b_team db !! teamId = Some team ∧ ¬ DBTeam.live team) →
  run (TeamDBImpl.deleteTeam teamId) db = (inr tt, db).
Proof.
  intros Hno. unfold TeamDBImpl.deleteTeam, TeamDBImpl.findTeamById. unfold_run.
  rewrite findTeamById_spec.
  destruct Hno as [->|[team [-> Hdead]]]; [done|].
  by rewrite decide_False.
Qed.

Lemma run_deleteTeam_live (db : Store) (teamId : string) (team : DBTeam.t) :
  d_b_team db !! teamId = Some team → DBTeam.live team →
  ∃ db', run (TeamDBImpl.deleteTeam teamId) db = (inr tt, db')
         ∧ d_b_team db' = <[teamId := (TeamDBImpl.set_markedDeleted true (teamId, team)).2]> (d_b_team db).
Proof.
  intros Hteam Hlive. unfold TeamDBImpl.deleteTeam, TeamDBImpl.findTeamById. unfold_run.
  rewrite findTeamById_spec, Hteam, decide_True by done. simpl.
  unfold TeamDBImpl.deleteOrgSettings. unfold_run.
  match goal with |- context [Repository.findOne ?P ?t] =>
    destruct (Repository.findOne P t) as [o|] end; simpl.
  - eexists. split; [reflexivity|]. simpl. unfold Repository.saveEntity, Repository.save.
    simpl. by rewrite Hteam.
  - eexists. split; [reflexivity|]. simpl. unfold Repository.saveEntity, Repository.save.
    simpl. by rewrite Hteam.
Qed.

(** C9. [deleteTeam] on an identifier that names no organization, or names
    one that is already marked deleted, resolves without an error and leaves
    every table as it was; hence deleting the same organization a second time
    changes nothing. *)
Theorem C9_deleteTeam_noop_idempotent (db : Store) (teamId : string) :
  ((d_b_team db !! teamId = None
    ∨ ∃ team, d_b_team db !! teamId = Some team ∧ ¬ DBTeam.live team) →
   run (TeamDBImpl.deleteTeam teamId) db = (inr tt, db))
  ∧ run (TeamDBImpl.deleteTeam teamId) (run (TeamDBImpl.deleteTeam teamId) db).2
    = (inr tt, (run (TeamDBImpl.deleteTeam teamId) db).2).
Proof.
  split; [apply run_deleteTeam_absent|].
  destruct (d_b_team db !! teamId) as [team|] eqn:Hteam.
  - destruct (decide (DBTeam.live team)) as [Hlive|Hdead].
    + destruct (run_deleteTeam_live db teamId team Hteam Hlive) as (db' & -> & Hdb').
      simpl. apply run_deleteTeam_absent. right. eexists. split.
      * rewrite Hdb'. apply lookup_insert_eq.
      * simpl. unfold DBTeam.live. simpl. intros [_ ?]. discriminate.
    + assert (d_b_team db !! teamId = None
              ∨ ∃ team, d_b_team db !! teamId = Some team ∧ ¬ DBTeam.live team) as Hno
        by (right; by exists team).
      rewrite (run_deleteTeam_absent db teamId Hno). simpl.
      by apply run_deleteTeam_absent.
  - rewrite (run_deleteTeam_absent db teamId (or_introl Hteam)). simpl.
    apply run_deleteTeam_absent. by left.
Qed.

Lemma C9_deleteTeam_noop_idempotent_witness :
  d_b_team Sample.oneOwner !! "t7" = None
  ∧ run (TeamDBImpl.deleteTeam "t7") Sample.oneOwner = (inr tt, Sample.oneOwner).
Proof.
  split; [reflexivity|].
  apply (proj1 (C9_deleteTeam_noop_idempotent Sample.oneOwner "t7")).
  left. reflexivity.
Defined.

(** C3 at a concrete database: after [deleteTeam] has marked [t1] deleted,
    [findTeamById] no longer finds it, yet [addMemberToTeam] adds a member
    to it instead of failing with [NOT_FOUND]. *)
Lemma C3_add_after_deleteTeam :
  let db' := (run (TeamDBImpl.deleteTeam "t1") Sample.oneOwner).2 in
  DBTeam.markedDeleted <$> d_b_team db' !! "t1" = Some true
  ∧ (run (TeamDBImpl.findTeamById "t1") db').1 = inr None
  ∧ (run (TeamDBImpl.addMemberToTeam Sample.addEnv "u3" "t1") db').1 = inr "added".
Proof. vm_compute. done. Qed.

(** ** Organization settings *)

(** C4. When the organization has a live settings row, [setOrgSettings]
    rewrites that row only: [workspaceSharingDisabled] takes the value the
    input carries and keeps its stored value when the input omits it, and
    every other column and every other row stays as it was. *)
Theorem C4_setOrgSettings_partial (db : Store) (orgId : string)
    (settings : OrganizationSettings) (row : DBOrgSettings.t) :
  d_b_org_settings db !! orgId = Some row →
  DBOrgSettings.deleted row = false →
  run (TeamDBImpl.setOrgSettings orgId settings) db
  = (inr tt,
     with_settings
       (insert orgId
          (DBOrgSettings.mk
             (default (DBOrgSettings.workspaceSharingDisabled row)
                      (workspaceSharingDisabled settings))
             (DBOrgSettings.deleted row))) db)
  ∧ (workspaceSharingDisabled settings = None →
     run (TeamDBImpl.setOrgSettings orgId settings) db = (inr tt, db)).
Proof.
  intros Hrow Hlive.
  assert (run (TeamDBImpl.setOrgSettings orgId settings) db
          = (inr tt,
             with_settings
               (insert orgId
                  (DBOrgSettings.mk
                     (default (DBOrgSettings.workspaceSharingDisabled row)
                              (workspaceSharingDisabled settings))
                     (DBOrgSettings.deleted row))) db)) as Hrun.
  { unfold TeamDBImpl.setOrgSettings. unfold_run.
    rewrite (findOne_by_key _ (λ v, DBOrgSettings.deleted v = false) orgId) by done.
    rewrite Hrow, decide_True by done. simpl.
    unfold Repository.save, with_settings. simpl. by rewrite Hrow. }
  split; [done|]. intros Hnone. rewrite Hrun, Hnone. simpl. f_equal.
  destruct db as [t m i s]. unfold with_settings. simpl in *. f_equal.
  apply insert_id. rewrite Hrow. by destruct row.
Qed.

Lemma C4_setOrgSettings_partial_witness :
  d_b_org_settings Sample.oneOwner !! "t1" = Some (DBOrgSettings.mk true false)
  ∧ run (TeamDBImpl.setOrgSettings "t1" (mkOrganizationSettings None)) Sample.oneOwner
    = (inr tt, Sample.oneOwner).
Proof.
  split; [reflexivity|].
  apply (proj2 (C4_setOrgSettings_partial Sample.oneOwner "t1" (mkOrganizationSettings None)
                  (DBOrgSettings.mk true false) eq_refl eq_refl)).
  reflexivity.
Defined.

(** ** Generic invites *)

Section Invites.
Implicit Types (tbl : gmap string DBTeamMembershipInvite.t).

Lemma findGeneric_spec tbl (teamId : string) :
  match head (filter (λ i : string * DBTeamMembershipInvite.t, TeamDBImpl.isValidGeneric i.2)
                (Repository.find (λ r, DBTeamMembershipInvite.teamId r.2 = teamId) tbl)) with
  | Some (k, i) =>
    tbl !! k = Some i ∧ DBTeamMembershipInvite.teamId i = teamId
    ∧ TeamDBImpl.isValidGeneric i
  | None => ∀ k, ¬ validAt tbl teamId k
  end.
Proof.
  match goal with |- match ?h with _ => _ end => destruct h as [[k i]|] eqn:E end.
  - apply head_filter_Some in E as [Hv Hin]. apply elem_of_find in Hin as [Ht Hl].
    done.
  - intros k (i & Hl & Ht & Hv). rewrite head_filter_None in E.
    apply (E (k, i)); [|done]. by apply elem_of_find.
Qed.

(** The invite table after one call. *)
Lemma run_resetGenericInvite (env : ResetInviteEnv) (teamId : string) (db : Store) :
  ∃ tbl1,
    ((tbl1 = d_b_team_membership_invite db
      ∧ ∀ k, ¬ validAt (d_b_team_membership_invite db) teamId k)
     ∨ ∃ k i, d_b_team_membership_invite db !! k = Some i
              ∧ DBTeamMembershipInvite.teamId i = teamId
              ∧ TeamDBImpl.isValidGeneric i
              ∧ tbl1 = <[k := (TeamDBImpl.set_invalidationTime (ri_invalidatedAt env) (k, i)).2]>
                         (d_b_team_membership_invite db))
    ∧ run (TeamDBImpl.resetGenericInvite env teamId) db
      = (inr (ri_uuid env, freshInvite env teamId),
         with_invite (λ _,
           Repository.save (ri_uuid env) (freshInvite env teamId)
             (λ old, DBTeamMembershipInvite.mk teamId member (ri_now env) EmptyString
                       (DBTeamMembershipInvite.invitedEmail old)) tbl1) db).
Proof.
  unfold TeamDBImpl.resetGenericInvite, TeamDBImpl.findGenericInviteByTeamId.
  unfold_run. pose proof (findGeneric_spec (d_b_team_membership_invite db) teamId) as Hf.
  destruct (head _) as [[k i]|]; simpl.
  - destruct Hf as (Hl & Ht & Hv). rewrite bool_decide_eq_true_2 by apply Hv. simpl.
    exists (<[k := (TeamDBImpl.set_invalidationTime (ri_invalidatedAt env) (k, i)).2]>
              (d_b_team_membership_invite db)).
    split; [right; exists k, i; done|].
    unfold with_invite, Repository.saveEntity, Repository.save. simpl.
    by rewrite Hl.
  - exists (d_b_team_membership_invite db). split; [left; done|]. reflexivity.
Qed.

(** C10. The invite [resetGenericInvite] returns and stores under the new
    identifier has the role [member], whatever the database held before,
    the role of the invite it replaces included. *)
Theorem C10_reset_role_member (env : ResetInviteEnv) (teamId : string) (db : Store) :
  ∃ invite row db',
    run (TeamDBImpl.resetGenericInvite env teamId) db = (inr (ri_uuid env, invite), db')
    ∧ DBTeamMembershipInvite.role invite = member
    ∧ d_b_team_membership_invite db' !! ri_uuid env = Some row
    ∧ DBTeamMembershipInvite.role row = member
    ∧ DBTeamMembershipInvite.teamId row = teamId
    ∧ DBTeamMembershipInvite.invalidationTime row = EmptyString.
Proof.
  destruct (run_resetGenericInvite env teamId db) as (tbl1 & _ & Hrun).
  eexists _, _, _. split; [exact Hrun|]. split; [done|].
  unfold with_invite, Repository.save. simpl. split; [apply lookup_insert_eq|].
  by destruct (tbl1 !! ri_uuid env).
Qed.

Lemma reset_step (env : ResetInviteEnv) (teamId : string) (db : Store) :
  d_b_team_membership_invite db !! ri_uuid env = None →
  ri_invalidatedAt env ≠ EmptyString →
  atMostOneValid (d_b_team_membership_invite db) teamId →
  stepped env teamId (d_b_team_membership_invite db)
    (d_b_team_membership_invite (run (TeamDBImpl.resetGenericInvite env teamId) db).2).
Proof.
  intros Hfresh Htime Hone.
  destruct (run_resetGenericInvite env teamId db) as (tbl1 & Hcase & ->).
  unfold with_invite, Repository.save. simpl.
  set (tbl := d_b_team_membership_invite db) in *.
  destruct Hcase as [[-> Hnone]|(k0 & i0 & Hl0 & Ht0 & Hv0 & ->)].
  - rewrite Hfresh. split.
    + apply lookup_insert_eq.
    + intros k (i & Hl & Ht & Hv). destruct (decide (k = ri_uuid env)) as [|Hne]; [done|].
      rewrite lookup_insert_ne in Hl by done. destruct (Hnone k). by exists i.
    + intros k i Hl. exists i. split; [|done].
      rewrite lookup_insert_ne; [done|]. intros <-. congruence.
    + intros k Hne Hl. by rewrite lookup_insert_ne.
    + by apply map_size_insert_None.
  - assert (k0 ≠ ri_uuid env) as Hk0 by (intros ->; congruence).
    rewrite lookup_insert_ne, Hfresh by done. split.
    + apply lookup_insert_eq.
    + intros k (i & Hl & Ht & Hv). destruct (decide (k = ri_uuid env)) as [|Hne]; [done|].
      rewrite lookup_insert_ne in Hl by done.
      destruct (decide (k = k0)) as [->|Hne0].
      * rewrite lookup_insert_eq in Hl. inversion Hl; subst i.
        destruct Hv as [Hv _]. simpl in Hv. done.
      * rewrite lookup_insert_ne in Hl by done. destruct Hne0.
        apply Hone; [by exists i|by exists i0].
    + intros k i Hl. destruct (decide (k = k0)) as [->|Hne0].
      * eexists. rewrite lookup_insert_ne, lookup_insert_eq by done.
        split; [done|]. simpl. assert (i = i0) as -> by congruence. done.
      * exists i. split; [|done].
        rewrite !lookup_insert_ne; [done|done|]. intros <-. congruence.
    + intros k Hne Hl. rewrite !lookup_insert_ne; [done| |done]. intros ->. congruence.
    + rewrite map_size_insert_None by (by rewrite lookup_insert_ne).
      by rewrite map_size_insert_Some.
Qed.

Lemma stepped_atMostOne env teamId tbl tbl' :
  stepped env teamId tbl tbl' → atMostOneValid tbl' teamId.
Proof.
  intros Hs k1 k2 H1 H2.
  rewrite (stepped_only _ _ _ _ Hs k1 H1). by rewrite (stepped_only _ _ _ _ Hs k2 H2).
Qed.
End Invites.

Section Resets.
Variable teamId : string.
Implicit Types (envs : list ResetInviteEnv) (db : Store).

Lemma resetGenericInvites_facts envs : ∀ db,
  atMostOneValid (d_b_team_membership_invite db) teamId →
  NoDup (ri_uuid <$> envs) →
  (∀ e, e ∈ envs → d_b_team_membership_invite db !! ri_uuid e = None) →
  (∀ e, e ∈ envs → ri_invalidatedAt e ≠ EmptyString) →
  resetsFacts teamId envs db (resetGenericInvites envs teamId db).
Proof.
  induction envs as [|e es IH]; intros db Hone Hnd Hfresh Htime.
  - simpl. split; [done|done| | |].
    + intros k i Hl. by exists i.
    + intros e He. by apply not_elem_of_nil in He.
    + simpl. lia.
  - simpl. rewrite fmap_cons in Hnd. apply NoDup_cons in Hnd as [Hnotin Hnd].
    set (db1 := (run (TeamDBImpl.resetGenericInvite e teamId) db).2).
    assert (stepped e teamId (d_b_team_membership_invite db) (d_b_team_membership_invite db1)) as Hstep.
    { apply reset_step; [apply Hfresh; left|apply Htime; left|done]. }
    assert (resetsFacts teamId es db1 (resetGenericInvites es teamId db1)) as Hrest.
    { apply IH; [by eapply stepped_atMostOne|done| |].
      - intros e' He'. apply (stepped_absent _ _ _ _ Hstep).
        + intros Heq. apply Hnotin. rewrite <- Heq. by apply list_elem_of_fmap_2.
        + apply Hfresh. by right.
      - intros e' He'. apply Htime. by right. }
    split.
    + apply (resets_atMostOne _ _ _ _ Hrest).
    + intros l Hlast. destruct es as [|e2 es'].
      * simpl in Hlast. inversion Hlast; subst l. simpl. split.
        -- apply (stepped_new _ _ _ _ Hstep).
        -- apply (stepped_only _ _ _ _ Hstep).
      * apply (resets_last _ _ _ _ Hrest). by rewrite last_cons_cons in Hlast.
    + intros k i Hl.
      destruct (stepped_kept _ _ _ _ Hstep k i Hl) as (i1 & Hl1 & Ht1 & He1).
      destruct (resets_kept _ _ _ _ Hrest k i1 Hl1) as (i2 & Hl2 & Ht2 & He2).
      exists i2. split; [done|]. split; congruence.
    + intros e' He'. apply elem_of_cons in He' as [->|He'].
      * destruct (resets_kept _ _ _ _ Hrest (ri_uuid e) (freshInvite e teamId)
                    (stepped_new _ _ _ _ Hstep)) as (i2 & Hl2 & Ht2 & He2).
        exists i2. done.
      * by apply (resets_created _ _ _ _ Hrest).
    + pose proof (resets_size _ _ _ _ Hrest) as Hs1.
      pose proof (stepped_size _ _ _ _ Hstep) as Hs2.
      change (size (d_b_team_membership_invite (resetGenericInvites es teamId db1))
              = size (d_b_team_membership_invite db) + S (length es)).
      rewrite Hs1, Hs2. lia.
Qed.
End Resets.

(** C6. Start from a database that holds at most one valid generic invite
    for the organization and call [resetGenericInvite] N ≥ 1 times in
    sequence, every call drawing an identifier that is new and a non-empty
    time stamp. Afterwards the valid generic invites of the organization are
    exactly one, the invite of the last call under its new identifier; each
    invite an earlier call created is still stored with a non-empty
    [invalidationTime]; and every row stored before is still stored. *)
Theorem C6_reset_single_valid (teamId : string) (envs : list ResetInviteEnv)
    (final : ResetInviteEnv) (db : Store) :
  length (validGenericInvites teamId db) ≤ 1 →
  NoDup (ri_uuid <$> (envs ++ [final])%list) →
  (∀ e, e ∈ (envs ++ [final])%list → d_b_team_membership_invite db !! ri_uuid e = None) →
  (∀ e, e ∈ (envs ++ [final])%list → ri_invalidatedAt e ≠ EmptyString) →
  let db' := resetGenericInvites ((envs ++ [final])%list) teamId db in
  validGenericInvites teamId db' = [(ri_uuid final, freshInvite final teamId)]
  ∧ (∀ e, e ∈ envs →
       ∃ i, d_b_team_membership_invite db' !! ri_uuid e = Some i
            ∧ DBTeamMembershipInvite.teamId i = teamId
            ∧ DBTeamMembershipInvite.invalidationTime i ≠ EmptyString)
  ∧ (∀ k, is_Some (d_b_team_membership_invite db !! k) →
          is_Some (d_b_team_membership_invite db' !! k))
  ∧ size (d_b_team_membership_invite db')
    = size (d_b_team_membership_invite db) + length ((envs ++ [final])%list).
Proof.
  intros Hone Hnd Hfresh Htime db'.
  assert (atMostOneValid (d_b_team_membership_invite db) teamId) as Hone'.
  { intros k1 k2 (i1 & Hl1 & Ht1 & Hv1) (i2 & Hl2 & Ht2 & Hv2).
    assert ((k1, i1) ∈ validGenericInvites teamId db) as H1 by (by apply elem_of_find).
    assert ((k2, i2) ∈ validGenericInvites teamId db) as H2 by (by apply elem_of_find).
    destruct (validGenericInvites teamId db) as [|x [|y l]]; simpl in Hone.
    - by apply not_elem_of_nil in H1.
    - apply list_elem_of_singleton in H1, H2. congruence.
    - lia. }
  pose proof (resetGenericInvites_facts teamId _ db Hone' Hnd Hfresh Htime) as Hf.
  fold db' in Hf.
  destruct (resets_last _ _ _ _ Hf final (last_snoc _ _)) as [Hnew Honly].
  split; [|split; [|split]].
  - apply NoDup_all_equal.
    + apply NoDup_find.
    + apply elem_of_find. split; [|done]. simpl. split; [done|]. by split.
    + intros [k i] Hin. apply elem_of_find in Hin as [[Ht Hv] Hl]. simpl in *.
      assert (k = ri_uuid final) as -> by (apply Honly; by exists i).
      congruence.
  - intros e He.
    destruct (resets_created _ _ _ _ Hf e) as (i & Hl & Ht & Hem);
      [apply elem_of_app; by left|].
    exists i. split; [done|]. split; [done|]. intros Hinv.
    assert (ri_uuid e = ri_uuid final) as Heq.
    { apply Honly. exists i. split; [done|]. split; [done|]. split; [done|].
      by rewrite Hem. }
    rewrite fmap_app in Hnd. apply NoDup_app in Hnd as (_ & Hdisj & _).
    apply (Hdisj (ri_uuid e)); [by apply list_elem_of_fmap_2|].
    rewrite Heq. simpl. left.
  - intros k [i Hl]. destruct (resets_kept _ _ _ _ Hf k i Hl) as (i' & Hl' & _). by exists i'.
  - apply (resets_size _ _ _ _ Hf).
Qed.

Lemma C6_reset_single_valid_witness :
  let db' := resetGenericInvites [Sample.reset1; Sample.reset2; Sample.reset3] "t1"
               Sample.oneOwner in
  validGenericInvites "t1" db' = [("i3", freshInvite Sample.reset3 "t1")]
  ∧ size (d_b_team_membership_invite db') = 3.
Proof.
  assert (NoDup (ri_uuid <$> [Sample.reset1; Sample.reset2; Sample.reset3])) as Hnd.
  { apply (bool_decide_unpack _). vm_compute. exact I. }
  assert (∀ e, e ∈ [Sample.reset1; Sample.reset2; Sample.reset3] →
               d_b_team_membership_invite Sample.oneOwner !! ri_uuid e = None) as Hfresh.
  { intros e He. reflexivity. }
  assert (∀ e, e ∈ [Sample.reset1; Sample.reset2; Sample.reset3] →
               ri_invalidatedAt e ≠ EmptyString) as Htime.
  { intros e He. repeat (apply elem_of_cons in He as [->|He]; [discriminate|]).
    by apply not_elem_of_nil in He. }
  assert (length (validGenericInvites "t1" Sample.oneOwner) ≤ 1) as Hone.
  { vm_compute. lia. }
  pose proof (C6_reset_single_valid "t1" [Sample.reset1; Sample.reset2] Sample.reset3
                Sample.oneOwner Hone Hnd Hfresh Htime) as (Hvalid & _ & _ & Hsize).
  split; [exact Hvalid|exact Hsize].
Defined.

(** ** Joining an organization *)

(** C7 (as the code has it). For a user who has no live membership in an
    organization that exists and is not deleted, two calls of
    [addMemberToTeam] in a row, the first drawing a new identifier, answer
    ["added"] and then ["already_member"], and afterwards the user has
    exactly one live membership row in the organization. *)
Theorem C7_add_twice (env env' : AddMemberEnv) (userId teamId : string)
    (team : DBTeam.t) (db : Store) :
  d_b_team db !! teamId = Some team →
  DBTeam.deleted team = false →
  liveMemberships userId teamId db = [] →
  d_b_team_membership db !! am_uuid env = None →
  ∃ db1,
    run (TeamDBImpl.addMemberToTeam env userId teamId) db = (inr "added", db1)
    ∧ run (TeamDBImpl.addMemberToTeam env' userId teamId) db1 = (inr "already_member", db1)
    ∧ liveMemberships userId teamId db1
      = [(am_uuid env, DBTeamMembership.mk teamId userId member (am_now env) false)].
Proof.
  intros Hteam Hdel Hnone Hfresh.
  set (row := DBTeamMembership.mk teamId userId member (am_now env) false).
  exists (with_membership (insert (am_uuid env) row) db).
  assert (liveMemberships userId teamId (with_membership (insert (am_uuid env) row) db)
          = [(am_uuid env, row)]) as Hone.
  { unfold liveMemberships, with_membership. simpl. apply find_insert_only; [done|done|].
    intros k v Hl HP.
    assert ((k, v) ∈ liveMemberships userId teamId db) as Hin by (by apply elem_of_find).
    rewrite Hnone in Hin. by apply not_elem_of_nil in Hin. }
  split; [|split; [|done]].
  - unfold TeamDBImpl.addMemberToTeam. unfold_run. unfold Repository.findOneById.
    rewrite Hteam. simpl. rewrite Hdel. simpl.
    unfold liveMemberships in Hnone. unfold Repository.findOne. rewrite Hnone. simpl.
    unfold with_membership, Repository.save. simpl. by rewrite Hfresh.
  - unfold TeamDBImpl.addMemberToTeam. unfold_run. unfold Repository.findOneById.
    rewrite Hteam. simpl. rewrite Hdel. simpl.
    unfold liveMemberships, with_membership in Hone. simpl in Hone.
    unfold Repository.findOne. by rewrite Hone.
Qed.

Lemma C7_add_twice_witness :
  ∃ db1,
    run (TeamDBImpl.addMemberToTeam Sample.addEnv "u3" "t1") Sample.oneOwner = (inr "added", db1)
    ∧ run (TeamDBImpl.addMemberToTeam Sample.addEnv' "u3" "t1") db1 = (inr "already_member", db1)
    ∧ liveMemberships "u3" "t1" db1
      = [("m3", DBTeamMembership.mk "t1" "u3" member "2023-02-02T00:00:00.000Z" false)].
Proof.
  apply (C7_add_twice Sample.addEnv Sample.addEnv' "u3" "t1" Sample.acme Sample.oneOwner);
    reflexivity.
Defined.

(** C7 fails as stated: [u2] is a live member of the live organization
    [t1], and the first of two calls already answers ["already_member"]. *)
Lemma C7_counterexample :
  d_b_team Sample.oneOwner !! "t1" = Some Sample.acme
  ∧ DBTeam.live Sample.acme
  ∧ (run (TeamDBImpl.addMemberToTeam Sample.addEnv "u2" "t1") Sample.oneOwner).1
    = inr "already_member".
Proof. vm_compute. done. Qed.

(** ** Creating an SSO client configuration *)

(** C8 (as the code has it). For every input with a non-nil id and a
    non-empty issuer whose id is not stored yet, [CreateOIDCClientConfig]
    inserts a record whose [active] flag is the [Active] field of the input
    (false when the caller leaves it unset); and it turns the input down,
    with one of its two argument errors, exactly when the id is nil or the
    issuer is empty. *)
Theorem C8_create_keeps_active (now : Z) (conn : gmap OIDC.UUID OIDC.Row)
    (cfg : OIDC.OIDCClientConfig) :
  (OIDC.invalidArgument (OIDC.CreateOIDCClientConfig now conn cfg).1
   ↔ OIDC.ID cfg = OIDC.uuid_Nil ∨ OIDC.Issuer cfg = EmptyString)
  ∧ (OIDC.ID cfg ≠ OIDC.uuid_Nil → OIDC.Issuer cfg ≠ EmptyString → conn !! OIDC.ID cfg = None →
     ∃ row conn',
       OIDC.CreateOIDCClientConfig now conn cfg = (inr cfg, conn')
       ∧ conn' !! OIDC.ID cfg = Some row
       ∧ OIDC.active row = OIDC.Active cfg
       ∧ OIDC.issuer row = OIDC.Issuer cfg
       ∧ OIDC.deleted row = false
       ∧ ∀ id, id ≠ OIDC.ID cfg → conn' !! id = conn !! id).
Proof.
  unfold OIDC.CreateOIDCClientConfig, OIDC.Create. split.
  - destruct (decide (OIDC.ID cfg = OIDC.uuid_Nil)) as [Hid|Hid].
    { rewrite bool_decide_eq_true_2 by done. simpl. tauto. }
    rewrite bool_decide_eq_false_2 by done.
    destruct (decide (OIDC.Issuer cfg = EmptyString)) as [Hiss|Hiss].
    { rewrite bool_decide_eq_true_2 by done. simpl. tauto. }
    rewrite bool_decide_eq_false_2 by done.
    destruct (conn !! OIDC.ID cfg); simpl; tauto.
  - intros Hid Hiss Hfree.
    rewrite !bool_decide_eq_false_2 by done. rewrite Hfree.
    eexists _, _. split; [reflexivity|]. simpl. rewrite lookup_insert_eq.
    split; [reflexivity|]. simpl. split; [done|]. split; [done|]. split; [done|].
    intros id Hne. by rewrite lookup_insert_ne.
Qed.

Lemma C8_create_keeps_active_witness :
  ∃ row conn',
    OIDC.CreateOIDCClientConfig 1700000000000000 ∅ Sample.ssoConfig
    = (inr Sample.ssoConfig, conn')
    ∧ conn' !! 7%N = Some row ∧ OIDC.active row = true.
Proof.
  destruct (proj2 (C8_create_keeps_active 1700000000000000 ∅ Sample.ssoConfig))
    as (row & conn' & Hrun & Hrow & Hactive & _); [discriminate|discriminate|reflexivity|].
  exists row, conn'. split; [exact Hrun|]. split; [exact Hrow|exact Hactive].
Defined.

(** C8 fails as stated: the input has an id and an issuer and carries
    [Active = true], and the record inserted for it is active. *)
Lemma C8_counterexample :
  OIDC.ID Sample.ssoConfig ≠ OIDC.uuid_Nil
  ∧ OIDC.Issuer Sample.ssoConfig ≠ EmptyString
  ∧ OIDC.active <$>
      (OIDC.CreateOIDCClientConfig 1700000000000000 ∅ Sample.ssoConfig).2 !! 7%N
    = Some true.
Proof. split; [discriminate|]. split; [discriminate|]. vm_compute. done. Qed.

(** ** Creating an organization *)

Lemma validName_checks (slugify : string → string) (name : string) :
  validName slugify name →
  JS.truthy name = true
  ∧ (String.length (JS.trim name) <? 3) = false
  ∧ (64 <? String.length (JS.trim name)) = false
  ∧ (String.length (slugify (JS.trim name)) <? 3) = false.
Proof.
  intros (Ht & [Hlo Hhi] & Hslug). split; [done|].
  split; [by apply Nat.ltb_ge|]. split; by apply Nat.ltb_ge.
Qed.

Ltac created_both :=
  unfold with_team, with_membership, Repository.save; simpl;
  split; [reflexivity|]; split; [|split];
  [ rewrite lookup_insert_eq; eexists; split; [reflexivity|];
    match goal with |- context [match ?x !! ?k with _ => _ end] =>
      destruct (x !! k) end; done
  | rewrite lookup_insert_eq; eexists; split; [reflexivity|];
    match goal with |- context [match ?x !! ?k with _ => _ end] =>
      destruct (x !! k) end; done
  | intros k Hne; by rewrite lookup_insert_ne ].

(** C2 (as the code has it). For every user and every valid name,
    [createTeam] writes the organization row inside a transaction and the
    owner membership in one further statement after the transaction has
    committed. A run that resolves leaves the organization row and one owner
    membership of the creating user, and touches no other membership row. A
    run can only fail on the database; when it fails inside the transaction
    the database is left as it was, and when it fails on the further
    statement the organization row is stored and the membership table is
    left as it was. *)
Theorem C2_createTeam_two_writes (slugify : string → string) (env : CreateTeamEnv)
    (userId name : string) (b : option nat) (db : Store) :
  validName slugify name →
  let out := run_with b (TeamDBImpl.createTeam slugify env userId name) db in
  match out.1 with
  | inr team =>
    team.1 = ct_teamUuid env
    ∧ (∃ row, d_b_team out.2 !! ct_teamUuid env = Some row
              ∧ DBTeam.name row = JS.trim name
              ∧ DBTeam.slug row = DBTeam.slug team.2)
    ∧ (∃ m, d_b_team_membership out.2 !! ct_membershipUuid env = Some m
            ∧ DBTeamMembership.teamId m = ct_teamUuid env
            ∧ DBTeamMembership.userId m = userId
            ∧ DBTeamMembership.role m = owner)
    ∧ (∀ k, k ≠ ct_membershipUuid env →
            d_b_team_membership out.2 !! k = d_b_team_membership db !! k)
  | inl e =>
    e = QueryFailedError
    ∧ ∃ n, b = Some n ∧ n ≤ 2
           ∧ d_b_team_membership out.2 = d_b_team_membership db
           ∧ (n < 2 → out.2 = db)
           ∧ (n = 2 → is_Some (d_b_team out.2 !! ct_teamUuid env))
  end.
Proof.
  intros Hvalid. apply validName_checks in Hvalid as (Ht & Hlo & Hhi & Hslug).
  unfold TeamDBImpl.createTeam. rewrite Ht. simpl. rewrite Hlo, Hhi, Hslug.
  destruct b as [[|[|[|n]]]|]; unfold_run.
  - (* the look-up inside the transaction fails *)
    split; [done|]. exists 0. split; [done|]. split; [lia|].
    split; [done|]. split; [done|]. lia.
  - (* the write inside the transaction fails *)
    split; [done|]. exists 1. split; [done|]. split; [lia|].
    split; [done|]. split; [done|]. lia.
  - (* the write of the membership fails *)
    split; [done|]. exists 2. split; [done|]. split; [lia|].
    split; [done|]. split; [lia|]. intros _.
    unfold with_team, Repository.save. simpl. rewrite lookup_insert_eq. by eexists.
  - created_both.
  - created_both.
Qed.

Lemma C2_createTeam_two_writes_witness :
  validName Sample.slugify "Gamma Inc"
  ∧ ∃ team,
      (run (TeamDBImpl.createTeam Sample.slugify Sample.createEnv "u1" "Gamma Inc")
         Sample.oneOwner).1 = inr team
      ∧ team.1 = "t9".
Proof.
  assert (validName Sample.slugify "Gamma Inc") as Hvalid.
  { split; [reflexivity|]. vm_compute. lia. }
  split; [exact Hvalid|].
  pose proof (C2_createTeam_two_writes Sample.slugify Sample.createEnv "u1" "Gamma Inc"
                None Sample.oneOwner Hvalid) as Hrun.
  cbv zeta in Hrun. unfold run. revert Hrun.
  generalize (run_with None
    (TeamDBImpl.createTeam Sample.slugify Sample.createEnv "u1" "Gamma Inc")
    Sample.oneOwner).1.
  intros [e|team] Hrun.
  - destruct Hrun as (_ & n & Hn & _). discriminate.
  - exists team. split; [reflexivity|]. apply Hrun.
Defined.

(** C2 fails as stated: when the database becomes unavailable after the
    transaction has committed, [createTeam] rejects and leaves the
    organization row stored with no membership that refers to it. *)
Lemma C2_counterexample :
  validName Sample.slugify "Gamma Inc"
  ∧ let out := run_with (Some 2)
                 (TeamDBImpl.createTeam Sample.slugify Sample.createEnv "u1" "Gamma Inc")
                 Sample.oneOwner in
    out.1 = inl QueryFailedError
    ∧ d_b_team out.2 !! "t9"
      = Some (DBTeam.mk "Gamma Inc" "gamma-inc" "2023-02-01T00:00:00.000Z" false false)
    ∧ Repository.find (λ r, DBTeamMembership.teamId r.2 = "t9") (d_b_team_membership out.2)
      = [].
Proof. split; [split; [reflexivity|vm_compute; lia]|]. vm_compute. done. Qed.

(** ** Renaming an organization *)

Section NeverThrows.
Variable code : ErrorCodes.

Lemma neverThrows_resolve {A} (a : A) : neverThrows code (resolve a).
Proof. intros c. simpl. tauto. Qed.

Lemma neverThrows_reject {A} (code' : ErrorCodes) (msg : string) :
  code' ≠ code → neverThrows code (@reject A (ResponseError code' msg)).
Proof. intros Hne c. simpl. done. Qed.

Lemma neverThrows_statement {A} (f : Store → option (A * Store)) :
  neverThrows code (statement f).
Proof.
  intros c. unfold statement.
  destruct (budget c) as [[|n]|]; simpl; [tauto| |];
    destruct (f (store c)) as [[a s']|]; simpl; tauto.
Qed.

Lemma neverThrows_then {A B} (m : Promise A) (k : A → Promise B) :
  neverThrows code m → (∀ a, neverThrows code (k a)) → neverThrows code (then_ m k).
Proof.
  intros Hm Hk c. unfold then_. specialize (Hm c).
  destruct (m c) as [[e|a] c']; simpl in *; [done|]. apply Hk.
Qed.

Lemma neverThrows_transaction {A} (body : Promise A) :
  neverThrows code body → neverThrows code (transaction body).
Proof.
  intros Hb c. unfold transaction. specialize (Hb c).
  destruct (body c) as [[e|a] c']; simpl in *; done.
Qed.
End NeverThrows.

Lemma updateTeam_neverThrows_CONFLICT (teamId : string) (team : TeamUpdate) :
  neverThrows CONFLICT (TeamDBImpl.updateTeam teamId team).
Proof.
  unfold TeamDBImpl.updateTeam.
  destruct (negb _ && negb _); [by apply neverThrows_reject|].
  apply neverThrows_transaction, neverThrows_then; [apply neverThrows_statement|].
  intros [existing|]; [|by apply neverThrows_reject].
  destruct (decide _); [apply neverThrows_resolve|].
  apply neverThrows_then.
  { destruct (JS.and_trim (update_name team)) as [nm|]; [|apply neverThrows_resolve].
    destruct (JS.truthy nm); [|apply neverThrows_resolve].
    destruct (32 <? String.length nm);
      [by apply neverThrows_reject|apply neverThrows_resolve]. }
  intros existing1. apply neverThrows_then.
  { destruct (JS.and_trim (update_slug team)) as [sl|]; [|apply neverThrows_resolve].
    destruct (JS.truthy sl && negb _); [|apply neverThrows_resolve].
    destruct (63 <? String.length sl); [by apply neverThrows_reject|].
    destruct (negb (JS.testSlugPattern sl)); [by apply neverThrows_reject|].
    apply neverThrows_then; [apply neverThrows_statement|].
    intros [another|]; [by apply neverThrows_reject|apply neverThrows_resolve]. }
  intros existing2. apply neverThrows_then; [apply neverThrows_statement|].
  intros _. apply neverThrows_resolve.
Qed.

Lemma testSlugPattern_truthy (s : string) : JS.testSlugPattern s = true → JS.truthy s = true.
Proof. unfold JS.testSlugPattern. by intros [? _]%andb_true_iff. Qed.

(** C5 (as the code has it). A rename whose trimmed slug is new for the
    target, at most 63 characters long, matches the slug pattern and equals
    the slug of a live organization is turned down with [INVALID_VALUE]
    ("Slug must be unique") and changes nothing, provided a name that comes
    with it is at most 32 characters long; no rename is ever turned down
    with [CONFLICT]. A rename that supplies a name or a slug fails with
    [NOT_FOUND] whenever the target is absent, deleted or marked deleted. *)
Theorem C5_updateTeam_errors (db : Store) (teamId : string) (team : TeamUpdate) :
  (∀ existing sl,
     d_b_team db !! teamId = Some existing → DBTeam.live existing →
     JS.and_trim (update_slug team) = Some sl →
     sl ≠ DBTeam.slug existing →
     String.length sl ≤ 63 → JS.testSlugPattern sl = true →
     (∀ nm, JS.and_trim (update_name team) = Some nm → String.length nm ≤ 32) →
     (∃ k other, d_b_team db !! k = Some other ∧ DBTeam.slug other = sl ∧ DBTeam.live other) →
     run (TeamDBImpl.updateTeam teamId team) db
     = (inl (ResponseError INVALID_VALUE "Slug must be unique"), db))
  ∧ ¬ threw CONFLICT (run (TeamDBImpl.updateTeam teamId team) db).1
  ∧ (JS.truthy_opt (JS.and_trim (update_name team)) = true
     ∨ JS.truthy_opt (JS.and_trim (update_slug team)) = true →
     (d_b_team db !! teamId = None
      ∨ ∃ existing, d_b_team db !! teamId = Some existing ∧ ¬ DBTeam.live existing) →
     run (TeamDBImpl.updateTeam teamId team) db
     = (inl (ResponseError NOT_FOUND "Organization not found"), db)).
Proof.
  split; [|split].
  - intros existing sl Hteam Hlive Hslug Hnew Hlen Hpat Hname (k & other & Hk & Hs & Hl).
    pose proof (testSlugPattern_truthy sl Hpat) as Htruthy.
    unfold TeamDBImpl.updateTeam. rewrite Hslug. simpl. rewrite Htruthy.
    rewrite andb_false_r. unfold_run.
    rewrite findTeamById_spec, Hteam, decide_True by done. simpl.
    rewrite decide_False by (intros [_ Heq]; congruence).
    assert ((63 <? String.length sl) = false) as H63 by (by apply Nat.ltb_ge).
    assert (DBTeam.slug existing ≠ sl) as Hnew' by congruence.
    assert (Repository.findOne (λ r : string * DBTeam.t, DBTeam.slug r.2 = sl ∧ DBTeam.live r.2)
              (d_b_team db) ≠ None) as Hfound.
    { intros Hnone. rewrite findOne_None in Hnone. by apply (Hnone k other Hk). }
    destruct (JS.and_trim (update_name team)) as [nm|] eqn:Hnm; simpl.
    + assert ((32 <? String.length nm) = false) as H32
        by (apply Nat.ltb_ge; by apply Hname).
      destruct (JS.truthy nm); simpl; rewrite ?H32; simpl.
      all: rewrite (bool_decide_eq_false_2 _ Hnew'); simpl.
      all: rewrite H63, Hpat; simpl.
      all: destruct (Repository.findOne _ _); done.
    + rewrite (bool_decide_eq_false_2 _ Hnew'). simpl.
      rewrite H63, Hpat. simpl.
      destruct (Repository.findOne _ _); done.
  - apply (updateTeam_neverThrows_CONFLICT teamId team (mkConn db None)).
  - intros Hsome Hgone. unfold TeamDBImpl.updateTeam.
    assert (negb (JS.truthy_opt (JS.and_trim (update_name team)))
            && negb (JS.truthy_opt (JS.and_trim (update_slug team))) = false) as ->.
    { destruct Hsome as [->| ->]; [done|]. apply andb_false_r. }
    unfold_run. rewrite findTeamById_spec.
    destruct Hgone as [->|(existing & -> & Hdead)]; [done|]. by rewrite decide_False.
Qed.

Lemma C5_updateTeam_errors_witness :
  run (TeamDBImpl.updateTeam "t1" (mkTeamUpdate None (Some " beta "))) Sample.oneOwner
  = (inl (ResponseError INVALID_VALUE "Slug must be unique"), Sample.oneOwner)
  ∧ run (TeamDBImpl.updateTeam "t7" (mkTeamUpdate None (Some "beta"))) Sample.oneOwner
    = (inl (ResponseError NOT_FOUND "Organization not found"), Sample.oneOwner).
Proof.
  split.
  - apply (proj1 (C5_updateTeam_errors Sample.oneOwner "t1"
                    (mkTeamUpdate None (Some " beta "))) Sample.acme "beta");
      try reflexivity.
    + by split.
    + discriminate.
    + vm_compute. lia.
    + intros nm Hnm. discriminate.
    + exists "t2", Sample.beta. by repeat split.
  - apply (proj2 (proj2 (C5_updateTeam_errors Sample.oneOwner "t7"
                           (mkTeamUpdate None (Some "beta"))))).
    + right. reflexivity.
    + left. reflexivity.
Defined.

(** C5 fails as stated: renaming [t1] to the slug of the live organization
    [t2] is turned down with [INVALID_VALUE], not [CONFLICT]; and a rename of
    an absent organization that supplies neither name nor slug is turned down
    with [BAD_REQUEST], not [NOT_FOUND]. *)
Lemma C5_counterexample :
  (DBTeam.slug <$> d_b_team Sample.oneOwner !! "t2" = Some "beta"
   ∧ (run (TeamDBImpl.updateTeam "t1" (mkTeamUpdate None (Some "beta"))) Sample.oneOwner).1
     = inl (ResponseError INVALID_VALUE "Slug must be unique"))
  ∧ (d_b_team Sample.oneOwner !! "t7" = None
     ∧ (run (TeamDBImpl.updateTeam "t7" (mkTeamUpdate None None)) Sample.oneOwner).1
       = inl (ResponseError BAD_REQUEST "No update provided")).
Proof. vm_compute. done. Qed.

(** * Further properties of the data-access class *)

Section TableUpdates.
Context {V : Type}.
Implicit Types (tbl : gmap string V) (P : string * V → Prop).

Lemma saveEntity_insert (e : string * V) tbl :
  Repository.saveEntity e tbl = <[e.1 := e.2]> tbl.
Proof. unfold Repository.saveEntity, Repository.save. by destruct (tbl !! e.1). Qed.

(** Rewriting one row changes the number of rows that meet a criterion by
    what the old and the new row contribute. *)
Lemma find_update_length P `{∀ r, Decision (P r)} tbl k v v' :
  tbl !! k = Some v →
  length (Repository.find P (<[k := v']> tbl)) + (if decide (P (k, v)) then 1 else 0)
  = length (Repository.find P tbl) + (if decide (P (k, v')) then 1 else 0).
Proof.
  intros Hk. unfold Repository.find.
  rewrite <- (insert_delete_eq tbl k v').
  rewrite (map_to_list_insert (delete k tbl) k v') by apply lookup_delete_eq.
  rewrite <- (map_to_list_delete tbl k v Hk).
  rewrite !filter_cons. destruct (decide (P (k, v))), (decide (P (k, v'))); simpl; lia.
Qed.

(** Rewriting the only row that meets a criterion into one that meets it. *)
Lemma find_update_only P `{∀ r, Decision (P r)} tbl k v v' :
  Repository.find P tbl = [(k, v)] → P (k, v') →
  Repository.find P (<[k := v']> tbl) = [(k, v')].
Proof.
  intros Hfind HP.
  assert (∀ k0 v0, (k0, v0) ∈ Repository.find P tbl → (k0, v0) = (k, v)) as Hall.
  { intros k0 v0 Hin. rewrite Hfind in Hin. by apply list_elem_of_singleton in Hin. }
  apply NoDup_all_equal; [apply NoDup_find|apply elem_of_find; split; [done|apply lookup_insert_eq]|].
  intros [k0 v0] Hin. apply elem_of_find in Hin as [HP0 Hl].
  destruct (decide (k = k0)) as [->|Hne].
  - rewrite lookup_insert_eq in Hl. congruence.
  - rewrite lookup_insert_ne in Hl by done.
    assert ((k0, v0) = (k, v)) as Heq by (apply Hall; by apply elem_of_find). congruence.
Qed.

(** Rewriting the only row that meets a criterion into one that does not. *)
Lemma find_update_none P `{∀ r, Decision (P r)} tbl k v v' :
  Repository.find P tbl = [(k, v)] → ¬ P (k, v') →
  Repository.find P (<[k := v']> tbl) = [].
Proof.
  intros Hfind HP.
  destruct (Repository.find P (<[k := v']> tbl)) as [|[k0 v0] l] eqn:E; [done|].
  assert ((k0, v0) ∈ Repository.find P (<[k := v']> tbl)) as Hin by (rewrite E; left).
  apply elem_of_find in Hin as [HP0 Hl].
  destruct (decide (k = k0)) as [->|Hne].
  - rewrite lookup_insert_eq in Hl. congruence.
  - rewrite lookup_insert_ne in Hl by done.
    assert ((k0, v0) ∈ Repository.find P tbl) as Hin by (by apply elem_of_find).
    rewrite Hfind in Hin. apply list_elem_of_singleton in Hin. congruence.
Qed.

Lemma findOne_find P `{∀ r, Decision (P r)} tbl :
  Repository.findOne P tbl = head (Repository.find P tbl).
Proof. reflexivity. Qed.

Lemma find_nil P `{∀ r, Decision (P r)} tbl :
  Repository.find P tbl = [] ↔ Repository.findOne P tbl = None.
Proof. unfold Repository.findOne. by rewrite head_None. Qed.

(** Two criteria that the same rows meet find the same rows. *)
Lemma find_ext P Q `{∀ r, Decision (P r)} `{∀ r, Decision (Q r)} tbl :
  (∀ r, P r ↔ Q r) → Repository.find P tbl = Repository.find Q tbl.
Proof. intros HPQ. unfold Repository.find. by apply list_filter_iff. Qed.
End TableUpdates.

(** ** Leaving an organization *)

(** What [removeMemberFromTeam] does, case by case. *)
Lemma run_removeMemberFromTeam (userId teamId : string) (db : Store) :
  ((d_b_team db !! teamId = None
    ∨ ∃ team, d_b_team db !! teamId = Some team ∧ DBTeam.deleted team = true)
   ∧ run (TeamDBImpl.removeMemberFromTeam userId teamId) db
     = (inl (ResponseError NOT_FOUND "An organization with this ID could not be found"), db))
  ∨ ((∃ team, d_b_team db !! teamId = Some team ∧ DBTeam.deleted team = false)
     ∧ liveMemberships userId teamId db = []
     ∧ run (TeamDBImpl.removeMemberFromTeam userId teamId) db
       = (inl (ResponseError BAD_REQUEST
                 "The given user is not currently a member of this organization or does not exist."),
          db))
  ∨ ((∃ team, d_b_team db !! teamId = Some team ∧ DBTeam.deleted team = false)
     ∧ ∃ k m, head (liveMemberships userId teamId db) = Some (k, m)
              ∧ d_b_team_membership db !! k = Some m
              ∧ DBTeamMembership.teamId m = teamId
              ∧ DBTeamMembership.userId m = userId
              ∧ DBTeamMembership.deleted m = false
              ∧ run (TeamDBImpl.removeMemberFromTeam userId teamId) db
                = (inr tt,
                   with_membership
                     (insert k (TeamDBImpl.set_deleted true (k, m)).2) db)).
Proof.
  unfold TeamDBImpl.removeMemberFromTeam. unfold_run. unfold Repository.findOneById.
  destruct (d_b_team db !! teamId) as [team|] eqn:Hteam; simpl; [|left; split; [by left|done]].
  destruct (DBTeam.deleted team) eqn:Hdel; simpl.
  { left. split; [right; by exists team|done]. }
  right. unfold liveMemberships.
  destruct (Repository.findOne _ (d_b_team_membership db)) as [[k m]|] eqn:E; simpl.
  - right. split; [by exists team|]. exists k, m. split; [exact E|].
    apply findOne_Some in E as [(Ht & Hu & Hd) Hl]. simpl in *.
    do 4 (split; [done|]). unfold with_membership. by rewrite saveEntity_insert.
  - left. split; [by exists team|]. split; [by apply find_nil|done].
Qed.

(** X1. [removeMemberFromTeam] resolves exactly when the organization is
    stored with [deleted = false] and the user has a live membership in it;
    whether the organization is marked deleted plays no part, and a call
    that rejects leaves the database as it was. *)
Theorem removeMemberFromTeam_resolves_iff (userId teamId : string) (db : Store) :
  ((run (TeamDBImpl.removeMemberFromTeam userId teamId) db).1 = inr tt
   ↔ (∃ team, d_b_team db !! teamId = Some team ∧ DBTeam.deleted team = false)
     ∧ liveMemberships userId teamId db ≠ [])
  ∧ ((run (TeamDBImpl.removeMemberFromTeam userId teamId) db).1 ≠ inr tt →
     (run (TeamDBImpl.removeMemberFromTeam userId teamId) db).2 = db).
Proof.
  destruct (run_removeMemberFromTeam userId teamId db)
    as [[Hno ->]|[(Hteam & Hnone & ->)|(Hteam & k & m & Hhd & _ & _ & _ & _ & ->)]]; simpl.
  - split; [|done]. split; [done|]. intros [(team & Ht & Hd) _].
    destruct Hno as [Hno|(team' & Ht' & Hd')]; congruence.
  - split; [|done]. split; [done|]. by intros [_ ?].
  - split; [|done]. split; [|done]. intros _. split; [done|]. intros Hnil.
    by rewrite Hnil in Hhd.
Qed.

(** X2. A call of [removeMemberFromTeam] that resolves is a soft delete of
    one live membership row of the user in the organization: the row stays
    stored with [deleted = true], no other row and no other table changes,
    the user has one live membership row fewer, and the number of live
    owners of the organization drops by one exactly when the row was an
    owner's. No role is protected. *)
Theorem removeMemberFromTeam_soft_deletes (userId teamId : string) (db db' : Store) :
  run (TeamDBImpl.removeMemberFromTeam userId teamId) db = (inr tt, db') →
  ∃ k m,
    d_b_team_membership db !! k = Some m
    ∧ DBTeamMembership.teamId m = teamId ∧ DBTeamMembership.userId m = userId
    ∧ DBTeamMembership.deleted m = false
    ∧ db' = with_membership (insert k (TeamDBImpl.set_deleted true (k, m)).2) db
    ∧ size (d_b_team_membership db') = size (d_b_team_membership db)
    ∧ length (liveMemberships userId teamId db') + 1
      = length (liveMemberships userId teamId db)
    ∧ liveOwnerCount teamId db'
      + (if decide (DBTeamMembership.role m = owner) then 1 else 0)
      = liveOwnerCount teamId db.
Proof.
  intros Hrun.
  destruct (run_removeMemberFromTeam userId teamId db)
    as [[_ Hr]|[(_ & _ & Hr)|(_ & k & m & _ & Hl & Ht & Hu & Hd & Hr)]];
    rewrite Hr in Hrun; try discriminate.
  inversion Hrun as [Hdb']. exists k, m. do 5 (split; [done|]).
  unfold with_membership, liveMemberships, liveOwnerCount, Repository.count. simpl.
  split; [by apply map_size_insert_Some|]. split.
  - pose proof (find_update_length
      (λ r : string * DBTeamMembership.t,
         DBTeamMembership.teamId r.2 = teamId ∧ DBTeamMembership.userId r.2 = userId
         ∧ DBTeamMembership.deleted r.2 = false)
      (d_b_team_membership db) k m (TeamDBImpl.set_deleted true (k, m)).2 Hl) as Hlen.
    rewrite decide_True in Hlen by done.
    rewrite decide_False in Hlen by (simpl; intros (_ & _ & ?); discriminate).
    simpl in *. lia.
  - pose proof (find_update_length
      (λ r : string * DBTeamMembership.t,
         DBTeamMembership.teamId r.2 = teamId ∧ DBTeamMembership.role r.2 = owner
         ∧ DBTeamMembership.deleted r.2 = false)
      (d_b_team_membership db) k m (TeamDBImpl.set_deleted true (k, m)).2 Hl) as Hlen.
    destruct (decide (DBTeamMembership.role m = owner)) as [Ho|Ho].
    + rewrite decide_True in Hlen by done.
      rewrite decide_False in Hlen by (simpl; intros (_ & _ & ?); discriminate).
      simpl in *. lia.
    + rewrite !decide_False in Hlen by (simpl; intros (_ & ? & _); done).
      simpl in *. lia.
Qed.

Lemma removeMemberFromTeam_resolves_iff_witness :
  (run (TeamDBImpl.removeMemberFromTeam "u2" "t7") Sample.oneOwner).1 ≠ inr tt
  ∧ (run (TeamDBImpl.removeMemberFromTeam "u2" "t7") Sample.oneOwner).2 = Sample.oneOwner.
Proof.
  assert ((run (TeamDBImpl.removeMemberFromTeam "u2" "t7") Sample.oneOwner).1 ≠ inr tt)
    as Hrej by (vm_compute; discriminate).
  split; [exact Hrej|].
  exact (proj2 (removeMemberFromTeam_resolves_iff "u2" "t7" Sample.oneOwner) Hrej).
Defined.

Lemma removeMemberFromTeam_soft_deletes_witness :
  ∃ k m, d_b_team_membership Sample.oneOwner !! k = Some m
         ∧ DBTeamMembership.userId m = "u2".
Proof.
  destruct (removeMemberFromTeam_soft_deletes "u2" "t1" Sample.oneOwner
              (run (TeamDBImpl.removeMemberFromTeam "u2" "t1") Sample.oneOwner).2)
    as (k & m & Hl & _ & Hu & _); [reflexivity|].
  by exists k, m.
Defined.

(** ** Changing a role, continued *)

Lemma find_length_pos {V} (P : string * V → Prop) `{∀ r, Decision (P r)}
    (tbl : gmap string V) k v :
  tbl !! k = Some v → P (k, v) → 1 ≤ length (Repository.find P tbl).
Proof.
  intros Hl HP. assert ((k, v) ∈ Repository.find P tbl) as Hin by (by apply elem_of_find).
  destruct (Repository.find P tbl); [by apply not_elem_of_nil in Hin|simpl; lia].
Qed.

(** What [setTeamMemberRole] does, case by case. *)
Lemma run_setTeamMemberRole (userId teamId : string) (role : TeamMemberRole) (db : Store) :
  ((d_b_team db !! teamId = None
    ∨ ∃ team, d_b_team db !! teamId = Some team ∧ DBTeam.deleted team = true)
   ∧ run (TeamDBImpl.setTeamMemberRole userId teamId role) db
     = (inl (ResponseError NOT_FOUND "An organization with this ID could not be found"), db))
  ∨ (role ≠ owner ∧ liveOwnerCount teamId db ≤ 1
     ∧ run (TeamDBImpl.setTeamMemberRole userId teamId role) db
       = (inl (ResponseError CONFLICT "An organization must retain at least one owner"), db))
  ∨ (liveMemberships userId teamId db = []
     ∧ run (TeamDBImpl.setTeamMemberRole userId teamId role) db
       = (inl (ResponseError NOT_FOUND
                 "The user is not currently a member of this organization"), db))
  ∨ ((∃ team, d_b_team db !! teamId = Some team ∧ DBTeam.deleted team = false)
     ∧ (role = owner ∨ 2 ≤ liveOwnerCount teamId db)
     ∧ ∃ k m, head (liveMemberships userId teamId db) = Some (k, m)
              ∧ d_b_team_membership db !! k = Some m
              ∧ DBTeamMembership.teamId m = teamId
              ∧ DBTeamMembership.userId m = userId
              ∧ DBTeamMembership.deleted m = false
              ∧ run (TeamDBImpl.setTeamMemberRole userId teamId role) db
                = (inr tt,
                   with_membership (insert k (TeamDBImpl.set_role role (k, m)).2) db)).
Proof.
  unfold TeamDBImpl.setTeamMemberRole. unfold_run. unfold Repository.findOneById.
  destruct (d_b_team db !! teamId) as [team|] eqn:Hteam; simpl; [|left; split; [by left|done]].
  destruct (DBTeam.deleted team) eqn:Hdel; simpl.
  { left. split; [right; by exists team|done]. }
  right. unfold liveMemberships.
  destruct (decide (role = owner)) as [->|Hrole].
  - rewrite bool_decide_eq_false_2 by (intros H; by apply H). simpl.
    destruct (Repository.findOne _ (d_b_team_membership db)) as [[k m]|] eqn:E; simpl.
    + right. right. split; [by exists team|]. split; [by left|]. exists k, m.
      split; [exact E|]. apply findOne_Some in E as [(Ht & Hu & Hd) Hl]. simpl in *.
      do 4 (split; [done|]). unfold with_membership. by rewrite saveEntity_insert.
    + right. left. split; [by apply find_nil|done].
  - rewrite bool_decide_eq_true_2 by done. simpl. unfold liveOwnerCount.
    destruct (Repository.count _ (d_b_team_membership db) <=? 1) eqn:Hle; simpl.
    { left. split; [done|]. split; [|done]. by apply Nat.leb_le. }
    apply Nat.leb_gt in Hle.
    destruct (Repository.findOne _ (d_b_team_membership db)) as [[k m]|] eqn:E; simpl.
    + right. right. split; [by exists team|]. split; [right; lia|]. exists k, m.
      split; [exact E|]. apply findOne_Some in E as [(Ht & Hu & Hd) Hl]. simpl in *.
      do 4 (split; [done|]). unfold with_membership. by rewrite saveEntity_insert.
    + right. left. split; [by apply find_nil|done].
Qed.

(** X3. A call of [setTeamMemberRole] that resolves leaves the organization
    with at least one live owner. *)
Theorem setTeamMemberRole_keeps_an_owner (userId teamId : string) (role : TeamMemberRole)
    (db db' : Store) :
  run (TeamDBImpl.setTeamMemberRole userId teamId role) db = (inr tt, db') →
  1 ≤ liveOwnerCount teamId db'.
Proof.
  intros Hrun.
  destruct (run_setTeamMemberRole userId teamId role db)
    as [[_ Hr]|[(_ & _ & Hr)|[(_ & Hr)|(_ & Hok & k & m & _ & Hl & Ht & Hu & Hd & Hr)]]];
    rewrite Hr in Hrun; try discriminate.
  inversion Hrun as [Hdb']. unfold liveOwnerCount, Repository.count, with_membership. simpl.
  pose proof (find_update_length
    (λ r : string * DBTeamMembership.t,
       DBTeamMembership.teamId r.2 = teamId ∧ DBTeamMembership.role r.2 = owner
       ∧ DBTeamMembership.deleted r.2 = false)
    (d_b_team_membership db) k m (TeamDBImpl.set_role role (k, m)).2 Hl) as Hlen.
  destruct Hok as [->|Htwo].
  - destruct (decide (DBTeamMembership.teamId (k, m).2 = teamId
                      ∧ DBTeamMembership.role (k, m).2 = owner
                      ∧ DBTeamMembership.deleted (k, m).2 = false)) as [HP|HP].
    + pose proof (find_length_pos
        (λ r : string * DBTeamMembership.t,
           DBTeamMembership.teamId r.2 = teamId ∧ DBTeamMembership.role r.2 = owner
           ∧ DBTeamMembership.deleted r.2 = false) _ k m Hl HP).
      rewrite decide_True in Hlen by done. simpl in *. lia.
    + rewrite decide_True in Hlen by done. simpl in *. lia.
  - unfold liveOwnerCount, Repository.count in Htwo.
    repeat match type of Hlen with context [decide ?P] => destruct (decide P) end;
      simpl in *; lia.
Qed.

Lemma setTeamMemberRole_keeps_an_owner_witness :
  1 ≤ liveOwnerCount "t1"
        (run (TeamDBImpl.setTeamMemberRole "u1" "t1" member) Sample.twoOwners).2.
Proof.
  apply (setTeamMemberRole_keeps_an_owner "u1" "t1" member Sample.twoOwners). reflexivity.
Defined.

(** X4. When the user has exactly one live membership row in an organization
    that is stored with [deleted = false], and the new role is [owner] or the
    organization has at least two live owners, [setTeamMemberRole] resolves,
    rewrites the role of that row and nothing else, and [findTeamMembership]
    then reports the row with the new role. *)
Theorem setTeamMemberRole_then_find (userId teamId : string) (role : TeamMemberRole)
    (team : DBTeam.t) (k : string) (m : DBTeamMembership.t) (db : Store) :
  d_b_team db !! teamId = Some team → DBTeam.deleted team = false →
  liveMemberships userId teamId db = [(k, m)] →
  role = owner ∨ 2 ≤ liveOwnerCount teamId db →
  let db' := with_membership (insert k (TeamDBImpl.set_role role (k, m)).2) db in
  run (TeamDBImpl.setTeamMemberRole userId teamId role) db = (inr tt, db')
  ∧ run (TeamDBImpl.findTeamMembership userId teamId) db'
    = (inr (Some (TeamDBImpl.set_role role (k, m))), db').
Proof.
  intros Hteam Hdel Hone Hok db'.
  assert ((k, m) ∈ liveMemberships userId teamId db) as Hin by (rewrite Hone; left).
  apply elem_of_find in Hin as [(Ht & Hu & Hd) Hl]. simpl in *.
  split.
  - destruct (run_setTeamMemberRole userId teamId role db)
      as [[Hno _]|[(Hrole & Hle & _)|[(Hnil & _)|(_ & _ & k' & m' & Hhd & _ & _ & _ & _ & Hr)]]].
    + destruct Hno as [Hno|(team' & Ht' & Hd')]; congruence.
    + destruct Hok; [done|lia].
    + congruence.
    + rewrite Hone in Hhd. simpl in Hhd. inversion Hhd; subst k' m'. exact Hr.
  - unfold TeamDBImpl.findTeamMembership. unfold_run. f_equal.
    rewrite findOne_find.
    rewrite (find_ext _
      (λ r : string * DBTeamMembership.t,
         DBTeamMembership.teamId r.2 = teamId ∧ DBTeamMembership.userId r.2 = userId
         ∧ DBTeamMembership.deleted r.2 = false)) by (intros r; tauto).
    unfold liveMemberships in Hone.
    by rewrite (find_update_only _ _ k m _ Hone).
Qed.

Lemma setTeamMemberRole_then_find_witness :
  run (TeamDBImpl.setTeamMemberRole "u2" "t1" owner) Sample.oneOwner
  = (inr tt,
     with_membership
       (insert "m2" (DBTeamMembership.mk "t1" "u2" owner "2023-01-03T00:00:00.000Z" false))
       Sample.oneOwner).
Proof.
  apply (setTeamMemberRole_then_find "u2" "t1" owner Sample.acme "m2"
           (DBTeamMembership.mk "t1" "u2" member "2023-01-03T00:00:00.000Z" false)
           Sample.oneOwner); try reflexivity.
  by left.
Defined.

(** X5. In an organization whose only live owner is the user,
    [setTeamMemberRole] turns the demotion of that user down with
    [CONFLICT], but [removeMemberFromTeam] removes the user and leaves the
    organization without a live owner. *)
Theorem sole_owner_can_be_removed (userId teamId : string) (team : DBTeam.t)
    (k : string) (m : DBTeamMembership.t) (db : Store) :
  d_b_team db !! teamId = Some team → DBTeam.deleted team = false →
  liveMemberships userId teamId db = [(k, m)] →
  DBTeamMembership.role m = owner →
  liveOwnerCount teamId db = 1 →
  threw CONFLICT (run (TeamDBImpl.setTeamMemberRole userId teamId member) db).1
  ∧ ∃ db', run (TeamDBImpl.removeMemberFromTeam userId teamId) db = (inr tt, db')
           ∧ liveOwnerCount teamId db' = 0
           ∧ liveMemberships userId teamId db' = [].
Proof.
  intros Hteam Hdel Hone Hrole Hcount.
  assert ((k, m) ∈ liveMemberships userId teamId db) as Hin by (rewrite Hone; left).
  apply elem_of_find in Hin as [(Ht & Hu & Hd) Hl]. simpl in Ht, Hu, Hd.
  split.
  - destruct (run_setTeamMemberRole userId teamId member db)
      as [[Hno _]|[(_ & _ & ->)|[(Hnil & _)|(_ & Hok & _)]]].
    + destruct Hno as [Hno|(team' & Ht' & Hd')]; congruence.
    + done.
    + congruence.
    + destruct Hok; [done|lia].
  - destruct (run_removeMemberFromTeam userId teamId db)
      as [[Hno _]|[(_ & Hnil & _)|(_ & k' & m' & Hhd & _ & _ & _ & _ & Hr)]].
    + destruct Hno as [Hno|(team' & Ht' & Hd')]; congruence.
    + congruence.
    + rewrite Hone in Hhd. simpl in Hhd. inversion Hhd; subst k' m'.
      eexists. split; [exact Hr|].
      unfold liveOwnerCount, liveMemberships, Repository.count, with_membership in *.
      simpl. split.
      * pose proof (find_update_length
          (λ r : string * DBTeamMembership.t,
             DBTeamMembership.teamId r.2 = teamId ∧ DBTeamMembership.role r.2 = owner
             ∧ DBTeamMembership.deleted r.2 = false)
          (d_b_team_membership db) k m (TeamDBImpl.set_deleted true (k, m)).2 Hl) as Hlen.
        rewrite decide_True in Hlen by done.
        rewrite decide_False in Hlen by (simpl; intros (_ & _ & ?); discriminate).
        simpl in *. lia.
      * apply (find_update_none _ _ k m); [done|]. simpl. intros (_ & _ & ?). discriminate.
Qed.

Lemma sole_owner_can_be_removed_witness :
  threw CONFLICT (run (TeamDBImpl.setTeamMemberRole "u1" "t1" member) Sample.oneOwner).1
  ∧ ∃ db', run (TeamDBImpl.removeMemberFromTeam "u1" "t1") Sample.oneOwner = (inr tt, db')
           ∧ liveOwnerCount "t1" db' = 0
           ∧ liveMemberships "u1" "t1" db' = [].
Proof.
  apply (sole_owner_can_be_removed "u1" "t1" Sample.acme "m1"
           (DBTeamMembership.mk "t1" "u1" owner "2023-01-01T00:00:00.000Z" false)
           Sample.oneOwner); reflexivity.
Defined.

(** ** Joining, leaving and joining again *)

(** What [addMemberToTeam] does, case by case. *)
Lemma run_addMemberToTeam (env : AddMemberEnv) (userId teamId : string) (db : Store) :
  ((d_b_team db !! teamId = None
    ∨ ∃ team, d_b_team db !! teamId = Some team ∧ DBTeam.deleted team = true)
   ∧ run (TeamDBImpl.addMemberToTeam env userId teamId) db
     = (inl (ResponseError NOT_FOUND "An organization with this ID could not be found"), db))
  ∨ ((∃ team, d_b_team db !! teamId = Some team ∧ DBTeam.deleted team = false)
     ∧ liveMemberships userId teamId db ≠ []
     ∧ run (TeamDBImpl.addMemberToTeam env userId teamId) db = (inr "already_member", db))
  ∨ ((∃ team, d_b_team db !! teamId = Some team ∧ DBTeam.deleted team = false)
     ∧ liveMemberships userId teamId db = []
     ∧ run (TeamDBImpl.addMemberToTeam env userId teamId) db
       = (inr "added",
          with_membership
            (Repository.save (am_uuid env)
               (DBTeamMembership.mk teamId userId member (am_now env) false)
               (λ old, DBTeamMembership.mk teamId userId member (am_now env)
                         (DBTeamMembership.deleted old))) db)).
Proof.
  unfold TeamDBImpl.addMemberToTeam. unfold_run. unfold Repository.findOneById.
  destruct (d_b_team db !! teamId) as [team|] eqn:Hteam; simpl; [|left; split; [by left|done]].
  destruct (DBTeam.deleted team) eqn:Hdel; simpl.
  { left. split; [right; by exists team|done]. }
  right. unfold liveMemberships.
  destruct (Repository.findOne _ (d_b_team_membership db)) as [[k m]|] eqn:E; simpl.
  - left. split; [by exists team|]. split; [|done]. intros Hnil.
    apply find_nil in Hnil. congruence.
  - right. split; [by exists team|]. split; [by apply find_nil|done].
Qed.

(** X6. A user without a live membership who joins an organization, leaves
    it and joins again is answered ["added"] both times: the first row stays
    stored as deleted, and the second call of [addMemberToTeam] writes a new
    row, which is then the user's only live membership. *)
Theorem add_remove_add (env env' : AddMemberEnv) (userId teamId : string)
    (team : DBTeam.t) (db : Store) :
  d_b_team db !! teamId = Some team → DBTeam.deleted team = false →
  liveMemberships userId teamId db = [] →
  d_b_team_membership db !! am_uuid env = None →
  d_b_team_membership db !! am_uuid env' = None →
  am_uuid env ≠ am_uuid env' →
  ∃ db1 db2 db3,
    run (TeamDBImpl.addMemberToTeam env userId teamId) db = (inr "added", db1)
    ∧ run (TeamDBImpl.removeMemberFromTeam userId teamId) db1 = (inr tt, db2)
    ∧ liveMemberships userId teamId db2 = []
    ∧ run (TeamDBImpl.addMemberToTeam env' userId teamId) db2 = (inr "added", db3)
    ∧ d_b_team_membership db3 !! am_uuid env
      = Some (DBTeamMembership.mk teamId userId member (am_now env) true)
    ∧ liveMemberships userId teamId db3
      = [(am_uuid env', DBTeamMembership.mk teamId userId member (am_now env') false)].
Proof.
  intros Hteam Hdel Hnone Hfresh Hfresh' Hne.
  set (row := DBTeamMembership.mk teamId userId member (am_now env) false).
  set (row' := DBTeamMembership.mk teamId userId member (am_now env') false).
  set (gone := DBTeamMembership.mk teamId userId member (am_now env) true).
  set (db1 := with_membership (insert (am_uuid env) row) db).
  set (db2 := with_membership (insert (am_uuid env) gone) db1).
  set (db3 := with_membership (insert (am_uuid env') row') db2).
  assert (∀ k v, d_b_team_membership db !! k = Some v →
                 ¬ (DBTeamMembership.teamId (k, v).2 = teamId
                    ∧ DBTeamMembership.userId (k, v).2 = userId
                    ∧ DBTeamMembership.deleted (k, v).2 = false)) as Hnone'.
  { intros k v Hl HP.
    assert ((k, v) ∈ liveMemberships userId teamId db) as Hin by (by apply elem_of_find).
    rewrite Hnone in Hin. by apply not_elem_of_nil in Hin. }
  assert (liveMemberships userId teamId db1 = [(am_uuid env, row)]) as Hlive1.
  { unfold liveMemberships, db1, with_membership. simpl. by apply find_insert_only. }
  assert (liveMemberships userId teamId db2 = []) as Hlive2.
  { unfold liveMemberships, db2, with_membership. simpl.
    apply (find_update_none _ _ _ row); [exact Hlive1|].
    simpl. intros (_ & _ & ?). discriminate. }
  exists db1, db2, db3. split; [|split; [|split; [done|split; [|split]]]].
  - destruct (run_addMemberToTeam env userId teamId db)
      as [[Hno _]|[(_ & Hsome & _)|(_ & _ & ->)]].
    + destruct Hno as [Hno|(team' & Ht' & Hd')]; congruence.
    + done.
    + unfold db1, with_membership, Repository.save. by rewrite Hfresh.
  - destruct (run_removeMemberFromTeam userId teamId db1)
      as [[Hno _]|[(_ & Hnil & _)|(_ & k' & m' & Hhd & _ & _ & _ & _ & ->)]].
    + destruct Hno as [Hno|(team' & Ht' & Hd')]; simpl in *; congruence.
    + congruence.
    + rewrite Hlive1 in Hhd. simpl in Hhd. by inversion Hhd.
  - destruct (run_addMemberToTeam env' userId teamId db2)
      as [[Hno _]|[(_ & Hsome & _)|(_ & _ & ->)]].
    + destruct Hno as [Hno|(team' & Ht' & Hd')]; simpl in *; congruence.
    + done.
    + unfold db3, with_membership, Repository.save. simpl.
      rewrite lookup_insert_ne by done. rewrite lookup_insert_ne by done.
      by rewrite Hfresh'.
  - unfold db3, db2, db1, with_membership. simpl.
    rewrite lookup_insert_ne by done. apply lookup_insert_eq.
  - unfold liveMemberships, db3, with_membership. simpl. apply find_insert_only.
    + unfold db2, db1, with_membership. simpl.
      rewrite lookup_insert_ne by done. by rewrite lookup_insert_ne.
    + done.
    + intros k v Hl HP.
      assert ((k, v) ∈ liveMemberships userId teamId db2) as Hin by (by apply elem_of_find).
      rewrite Hlive2 in Hin. by apply not_elem_of_nil in Hin.
Qed.

Lemma add_remove_add_witness :
  ∃ db1 db2 db3,
    run (TeamDBImpl.addMemberToTeam Sample.addEnv "u3" "t1") Sample.oneOwner = (inr "added", db1)
    ∧ run (TeamDBImpl.removeMemberFromTeam "u3" "t1") db1 = (inr tt, db2)
    ∧ run (TeamDBImpl.addMemberToTeam Sample.addEnv' "u3" "t1") db2 = (inr "added", db3).
Proof.
  destruct (add_remove_add Sample.addEnv Sample.addEnv' "u3" "t1" Sample.acme Sample.oneOwner)
    as (db1 & db2 & db3 & H1 & H2 & _ & H3 & _); try reflexivity; [discriminate|].
  by exists db1, db2, db3.
Defined.

(** ** Creating an organization, continued *)

(** X7. On a connection that does not fail, [createTeam] resolves exactly
    for the valid names: a non-empty name whose trimmed form has 3 to 64
    characters and whose slug has at least 3. Every other name is turned down
    with [BAD_REQUEST] and nothing is written. *)
Theorem createTeam_rejects_invalid_names (slugify : string → string) (env : CreateTeamEnv)
    (userId name : string) (db : Store) :
  (validName slugify name
   ∧ ∃ team, (run (TeamDBImpl.createTeam slugify env userId name) db).1 = inr team)
  ∨ (¬ validName slugify name
     ∧ ∃ msg, run (TeamDBImpl.createTeam slugify env userId name) db
              = (inl (ResponseError BAD_REQUEST msg), db)).
Proof.
  unfold TeamDBImpl.createTeam, validName.
  destruct (JS.truthy name) eqn:Ht; simpl.
  2: { right. split; [by intros [? _]|]. by eexists. }
  destruct (String.length (JS.trim name) <? 3) eqn:Hlo.
  { right. apply Nat.ltb_lt in Hlo. split; [intros (_ & [? _] & _); lia|]. by eexists. }
  destruct (64 <? String.length (JS.trim name)) eqn:Hhi.
  { right. apply Nat.ltb_lt in Hhi. split; [intros (_ & [_ ?] & _); lia|]. by eexists. }
  destruct (String.length (slugify (JS.trim name)) <? 3) eqn:Hslug.
  { right. apply Nat.ltb_lt in Hslug. split; [intros (_ & _ & ?); lia|]. by eexists. }
  left. apply Nat.ltb_ge in Hlo, Hhi, Hslug. split; [done|].
  unfold_run. by eexists.
Qed.

(** ** Renaming an organization, continued *)

Lemma with_team_insert_id (db : Store) (k : string) (t : DBTeam.t) :
  d_b_team db !! k = Some t → with_team (insert k t) db = db.
Proof.
  intros Hl. destruct db as [tt mm ii ss]. unfold with_team. simpl in *.
  by rewrite insert_id.
Qed.

(** What [updateTeam] does: it rejects and leaves the database as it was, or
    it stores and returns the renamed record of a live organization, with a
    slug that is the old one or that no live organization holds. *)
Lemma run_updateTeam (teamId : string) (team : TeamUpdate) (db : Store) :
  (∃ e, run (TeamDBImpl.updateTeam teamId team) db = (inl e, db))
  ∨ ∃ existing,
      d_b_team db !! teamId = Some existing ∧ DBTeam.live existing
      ∧ run (TeamDBImpl.updateTeam teamId team) db
        = (inr (teamId, renamed (JS.and_trim (update_name team))
                          (JS.and_trim (update_slug team)) existing),
           with_team (insert teamId
                        (renamed (JS.and_trim (update_name team))
                           (JS.and_trim (update_slug team)) existing)) db)
      ∧ (DBTeam.slug (renamed (JS.and_trim (update_name team))
                        (JS.and_trim (update_slug team)) existing)
         = DBTeam.slug existing
         ∨ ∀ k t, d_b_team db !! k = Some t → DBTeam.live t →
                  DBTeam.slug t ≠ DBTeam.slug (renamed (JS.and_trim (update_name team))
                                                 (JS.and_trim (update_slug team)) existing)).
Proof.
  unfold TeamDBImpl.updateTeam.
  generalize (JS.and_trim (update_name team)) (JS.and_trim (update_slug team)).
  intros name slug.
  destruct (negb (JS.truthy_opt name) && negb (JS.truthy_opt slug)) eqn:Hempty.
  { left. by eexists. }
  unfold_run. rewrite findTeamById_spec.
  destruct (d_b_team db !! teamId) as [existing|] eqn:Hteam; [|left; by eexists].
  destruct (decide (DBTeam.live existing)) as [Hlive|Hdead]; [|left; by eexists].
  simpl.
  destruct (decide (Some (DBTeam.name existing) = name ∧ Some (DBTeam.slug existing) = slug))
    as [[<- <-]|Hchange]; simpl.
  { right. exists existing. split; [done|]. split; [done|].
    assert (∀ nm sl, nm = DBTeam.name existing → sl = DBTeam.slug existing →
              renamed (Some nm) (Some sl) existing = existing) as Hsame.
    { intros nm sl -> ->. unfold renamed. destruct existing as [n s c md d]. simpl.
      by destruct (JS.truthy n), (JS.truthy s). }
    rewrite (Hsame _ _ eq_refl eq_refl).
    split; [by rewrite with_team_insert_id|].
    left. by destruct (JS.truthy (DBTeam.slug existing)). }
  assert (∀ e : string * DBTeam.t,
            Repository.saveEntity e (d_b_team db) = <[e.1 := e.2]> (d_b_team db)) as Hsave
    by (intros e; apply saveEntity_insert).
  destruct existing as [n0 s0 c0 md0 d0]. unfold renamed. simpl in *.
  destruct name as [n|]; simpl; [destruct (JS.truthy n) eqn:Hn; simpl|].
  1: destruct (32 <? String.length n); simpl; [left; by eexists|].
  all: destruct slug as [sl|]; simpl; [destruct (JS.truthy sl) eqn:Hsl; simpl|].
  all: try (destruct (decide (s0 = sl)) as [->|Hne];
            [rewrite bool_decide_eq_true_2 by done
            |rewrite bool_decide_eq_false_2 by done]; simpl).
  all: try (destruct (63 <? String.length sl); simpl; [left; by eexists|]).
  all: try (destruct (JS.testSlugPattern sl); simpl; [|left; by eexists]).
  all: try (match goal with |- context [Repository.findOne ?P ?t] =>
              destruct (Repository.findOne P t) as [another|] eqn:Hfind end; simpl;
            [left; by eexists|]).
  all: right; eexists; split; [reflexivity|]; split; [done|].
  all: unfold with_team; rewrite ?Hsave; simpl; split; [reflexivity|].
  all: try (left; reflexivity).
  all: right; intros k t Hk Hl Heq; rewrite findOne_None in Hfind;
       by apply (Hfind k t Hk).
Qed.

(** X8. [updateTeam] keeps the slugs of the live organizations distinct:
    if no two live organizations share a slug before the call, none do after
    it, whether the call resolves or rejects. *)
Theorem updateTeam_keeps_slugs_unique (teamId : string) (team : TeamUpdate) (db : Store) :
  uniqueLiveSlugs (d_b_team db) →
  uniqueLiveSlugs (d_b_team (run (TeamDBImpl.updateTeam teamId team) db).2).
Proof.
  intros Huniq.
  destruct (run_updateTeam teamId team db) as [[e ->]|(existing & Hteam & Hlive & -> & Hslug)];
    [done|].
  simpl. set (new := renamed _ _ existing) in *.
  assert (DBTeam.live new) as Hnew by done.
  intros k1 k2 t1 t2 H1 H2 Hl1 Hl2 Heq.
  destruct (decide (k1 = teamId)) as [->|Hk1], (decide (k2 = teamId)) as [->|Hk2]; [done|..].
  - rewrite lookup_insert_eq in H1. rewrite lookup_insert_ne in H2 by done.
    inversion H1; subst t1. destruct Hslug as [Hsame|Hfree].
    + apply (Huniq teamId k2 existing t2); [done|done|done|done|congruence].
    + by destruct (Hfree k2 t2 H2 Hl2).
  - rewrite lookup_insert_ne in H1 by done. rewrite lookup_insert_eq in H2.
    inversion H2; subst t2. destruct Hslug as [Hsame|Hfree].
    + apply (Huniq k1 teamId t1 existing); [done|done|done|done|congruence].
    + by destruct (Hfree k1 t1 H1 Hl1).
  - rewrite lookup_insert_ne in H1, H2 by done. by apply (Huniq k1 k2 t1 t2).
Qed.

Lemma updateTeam_keeps_slugs_unique_witness :
  uniqueLiveSlugs
    (d_b_team (run (TeamDBImpl.updateTeam "t1" (mkTeamUpdate (Some "Acme Corp") (Some "acme-corp")))
                 Sample.oneOwner).2).
Proof.
  apply (updateTeam_keeps_slugs_unique "t1" (mkTeamUpdate (Some "Acme Corp") (Some "acme-corp"))
           Sample.oneOwner).
  intros k1 k2 t1 t2 H1 H2 _ _ Heq. unfold Sample.oneOwner, Sample.teams in H1, H2. simpl in *.
  apply lookup_insert_Some in H1 as [[<- <-]|[Hn1 H1]];
    apply lookup_insert_Some in H2 as [[<- <-]|[Hn2 H2]]; try done.
  - apply lookup_singleton_Some in H2 as [<- <-]. discriminate.
  - apply lookup_singleton_Some in H1 as [<- <-]. discriminate.
  - apply lookup_singleton_Some in H1 as [<- <-].
    by apply lookup_singleton_Some in H2 as [<- <-].
Defined.

(** X9. A call of [updateTeam] that resolves returns the record it stored:
    the organization keeps its identifier, creation time and flags, takes
    the trimmed name and slug the request supplies and keeps the ones it does
    not, [findTeamById] reports that record afterwards, and no other
    organization and no other table is touched. *)
Theorem updateTeam_returns_stored (teamId : string) (team : TeamUpdate)
    (e : string * DBTeam.t) (db db' : Store) :
  run (TeamDBImpl.updateTeam teamId team) db = (inr e, db') →
  ∃ existing,
    d_b_team db !! teamId = Some existing
    ∧ e = (teamId, renamed (JS.and_trim (update_name team))
                     (JS.and_trim (update_slug team)) existing)
    ∧ run (TeamDBImpl.findTeamById teamId) db' = (inr (Some e), db')
    ∧ (∀ k, k ≠ teamId → d_b_team db' !! k = d_b_team db !! k)
    ∧ d_b_team_membership db' = d_b_team_membership db
    ∧ d_b_team_membership_invite db' = d_b_team_membership_invite db
    ∧ d_b_org_settings db' = d_b_org_settings db.
Proof.
  intros Hrun.
  destruct (run_updateTeam teamId team db) as [[err Hr]|(existing & Hteam & Hlive & Hr & _)];
    rewrite Hr in Hrun; [discriminate|].
  inversion Hrun; subst e db'. exists existing. split; [done|]. split; [done|].
  split; [|split; [|done]].
  - unfold TeamDBImpl.findTeamById. unfold_run. rewrite findTeamById_spec.
    rewrite lookup_insert_eq. by rewrite decide_True.
  - intros k Hne. simpl. by rewrite lookup_insert_ne.
Qed.

Lemma updateTeam_returns_stored_witness :
  ∃ existing,
    d_b_team Sample.oneOwner !! "t1" = Some existing
    ∧ run (TeamDBImpl.findTeamById "t1")
        (run (TeamDBImpl.updateTeam "t1" (mkTeamUpdate (Some " Acme Corp ") None))
           Sample.oneOwner).2
      = (inr (Some ("t1", renamed (Some "Acme Corp") None existing)),
         (run (TeamDBImpl.updateTeam "t1" (mkTeamUpdate (Some " Acme Corp ") None))
            Sample.oneOwner).2).
Proof.
  destruct (updateTeam_returns_stored "t1" (mkTeamUpdate (Some " Acme Corp ") None)
              ("t1", renamed (Some "Acme Corp") None Sample.acme) Sample.oneOwner
              (run (TeamDBImpl.updateTeam "t1" (mkTeamUpdate (Some " Acme Corp ") None))
                 Sample.oneOwner).2)
    as (existing & Hl & He & Hfind & _); [reflexivity|].
  exists existing. split; [exact Hl|].
  assert (Some existing = Some Sample.acme) as Heq by (rewrite <- Hl; reflexivity).
  inversion Heq; subst existing.
  exact Hfind.
Defined.

(** ** Soft-deleting an organization, continued *)

Lemma findOrgSettings_spec (orgId : string) (tbl : gmap string DBOrgSettings.t) :
  Repository.findOne (λ r, r.1 = orgId ∧ DBOrgSettings.deleted r.2 = false) tbl =
    match tbl !! orgId with
    | Some v => if decide (DBOrgSettings.deleted v = false) then Some (orgId, v) else None
    | None => None
    end.
Proof. by apply findOne_by_key. Qed.

(** The settings table after the organization [orgId] has been deleted. *)
Lemma run_deleteTeam_effect (db : Store) (teamId : string) (team : DBTeam.t) :
  d_b_team db !! teamId = Some team → DBTeam.live team →
  run (TeamDBImpl.deleteTeam teamId) db
  = (inr tt,
     mkStore (<[teamId := (TeamDBImpl.set_markedDeleted true (teamId, team)).2]> (d_b_team db))
       (d_b_team_membership db) (d_b_team_membership_invite db)
       (match d_b_org_settings db !! teamId with
        | Some s =>
          if decide (DBOrgSettings.deleted s = false)
          then <[teamId := DBOrgSettings.mk (DBOrgSettings.workspaceSharingDisabled s) true]>
                 (d_b_org_settings db)
          else d_b_org_settings db
        | None => d_b_org_settings db
        end)).
Proof.
  intros Hteam Hlive. unfold TeamDBImpl.deleteTeam, TeamDBImpl.findTeamById. unfold_run.
  rewrite findTeamById_spec, Hteam, decide_True by done. simpl.
  unfold TeamDBImpl.deleteOrgSettings. unfold_run. rewrite findOrgSettings_spec.
  unfold with_team. rewrite !saveEntity_insert. simpl.
  destruct (d_b_org_settings db !! teamId) as [s|] eqn:Hs; simpl; [|done].
  destruct (decide (DBOrgSettings.deleted s = false)); simpl; [|done].
  unfold with_settings. by rewrite saveEntity_insert.
Qed.



(** ** The organizations of a user *)

Lemma elem_of_findByIds {V} (ids : list string) (tbl : gmap string V) k v :
  (k, v) ∈ Repository.findByIds ids tbl ↔ k ∈ ids ∧ tbl !! k = Some v.
Proof.
  unfold Repository.findByIds. rewrite list_elem_of_filter. simpl.
  by rewrite elem_of_map_to_list.
Qed.

Lemma run_findTeamsByUser (userId : string) (db : Store) :
  ∃ teams,
    run (TeamDBImpl.findTeamsByUser userId) db = (inr teams, db)
    ∧ NoDup teams
    ∧ ∀ k t, (k, t) ∈ teams
             ↔ d_b_team db !! k = Some t ∧ DBTeam.markedDeleted t = false
               ∧ ∃ mid m, d_b_team_membership db !! mid = Some m
                          ∧ DBTeamMembership.userId m = userId
                          ∧ DBTeamMembership.teamId m = k
                          ∧ DBTeamMembership.deleted m = false.
Proof.
  unfold TeamDBImpl.findTeamsByUser. unfold_run. eexists. split; [reflexivity|]. split.
  - apply NoDup_filter. unfold Repository.findByIds. apply NoDup_filter, NoDup_map_to_list.
  - intros k t. rewrite list_elem_of_filter, elem_of_findByIds. simpl.
    rewrite list_elem_of_fmap. split.
    + intros (Hmd & ([mid m] & -> & Hin) & Hl). apply elem_of_find in Hin as [[Hu Hd] Hm].
      split; [done|]. split; [done|]. by exists mid, m.
    + intros (Hl & Hmd & mid & m & Hm & Hu & Ht & Hd). split; [done|]. split; [|done].
      exists (mid, m). split; [done|]. by apply elem_of_find.
Qed.

(** X11. [findTeamsByUser] returns, without repetition, exactly the
    organizations that are not marked deleted and in which the user has a
    membership row that is not deleted; the [deleted] flag of the
    organization itself is not looked at. *)
Theorem findTeamsByUser_membership (userId : string) (db : Store) :
  ∃ teams,
    run (TeamDBImpl.findTeamsByUser userId) db = (inr teams, db)
    ∧ NoDup teams.*1
    ∧ ∀ k t, (k, t) ∈ teams
             ↔ d_b_team db !! k = Some t ∧ DBTeam.markedDeleted t = false
               ∧ ∃ mid m, d_b_team_membership db !! mid = Some m
                          ∧ DBTeamMembership.userId m = userId
                          ∧ DBTeamMembership.teamId m = k
                          ∧ DBTeamMembership.deleted m = false.
Proof.
  destruct (run_findTeamsByUser userId db) as (teams & Hrun & Hnd & Hin).
  exists teams. split; [done|]. split; [|done].
  apply NoDup_fmap_2_strong; [|done].
  intros [k1 t1] [k2 t2] H1 H2 Heq. simpl in Heq. subst k2.
  apply Hin in H1 as [H1 _]. apply Hin in H2 as [H2 _]. congruence.
Qed.




(** ** Creating an organization: what is stored *)

(** The slug [createTeam] gives the new organization. *)
Lemma run_createTeam_valid (slugify : string → string) (env : CreateTeamEnv)
    (userId name : string) (db : Store) :
  validName slugify name →
  d_b_team db !! ct_teamUuid env = None →
  d_b_team_membership db !! ct_membershipUuid env = None →
  ∃ slug,
    ((∀ k t, d_b_team db !! k = Some t → DBTeam.live t →
             DBTeam.slug t ≠ slugify (JS.trim name))
     ∧ slug = slugify (JS.trim name)
     ∨ (∃ k t, d_b_team db !! k = Some t ∧ DBTeam.live t
               ∧ DBTeam.slug t = slugify (JS.trim name))
       ∧ slug = slugify (JS.trim name) +:+ "-" +:+ ct_randomHex env)
    ∧ run (TeamDBImpl.createTeam slugify env userId name) db
      = (inr (ct_teamUuid env, DBTeam.mk (JS.trim name) slug (ct_now env) false false),
         with_membership
           (insert (ct_membershipUuid env)
              (DBTeamMembership.mk (ct_teamUuid env) userId owner (ct_now env) false))
           (with_team
              (insert (ct_teamUuid env)
                 (DBTeam.mk (JS.trim name) slug (ct_now env) false false)) db)).
Proof.
  intros Hvalid Hteam Hmem. apply validName_checks in Hvalid as (Ht & Hlo & Hhi & Hslug).
  unfold TeamDBImpl.createTeam. rewrite Ht. simpl. rewrite Hlo, Hhi, Hslug. unfold_run.
  unfold with_membership, with_team, Repository.save. simpl. rewrite Hteam, Hmem.
  destruct (Repository.findOne _ (d_b_team db)) as [[k t]|] eqn:E.
  - eexists. split; [|reflexivity]. right. split; [|done].
    apply findOne_Some in E as [[Hs Hl] Hk]. by exists k, t.
  - eexists. split; [|reflexivity]. left. split; [|done].
    rewrite findOne_None in E. intros k t Hk Hl Hs. by apply (E k t Hk).
Qed.

(** X13. For a valid name and identifiers that are not stored yet,
    [createTeam] stores a live organization under the new identifier, with
    the trimmed name and with the slug of the name, or that slug followed by
    a dash and the random suffix when a live organization already holds it;
    [findTeamById] then reports the organization, the creator is its one
    live owner, and [findTeamsByUser] lists it for the creator. *)
Theorem createTeam_then_lookups (slugify : string → string) (env : CreateTeamEnv)
    (userId name : string) (db : Store) :
  validName slugify name →
  d_b_team db !! ct_teamUuid env = None →
  d_b_team_membership db !! ct_membershipUuid env = None →
  (∀ mid m, d_b_team_membership db !! mid = Some m →
            DBTeamMembership.teamId m ≠ ct_teamUuid env) →
  ∃ team db',
    run (TeamDBImpl.createTeam slugify env userId name) db = (inr (ct_teamUuid env, team), db')
    ∧ DBTeam.name team = JS.trim name
    ∧ ((∀ k t, d_b_team db !! k = Some t → DBTeam.live t →
               DBTeam.slug t ≠ slugify (JS.trim name))
       ∧ DBTeam.slug team = slugify (JS.trim name)
       ∨ (∃ k t, d_b_team db !! k = Some t ∧ DBTeam.live t
                 ∧ DBTeam.slug t = slugify (JS.trim name))
         ∧ DBTeam.slug team = slugify (JS.trim name) +:+ "-" +:+ ct_randomHex env)
    ∧ run (TeamDBImpl.findTeamById (ct_teamUuid env)) db'
      = (inr (Some (ct_teamUuid env, team)), db')
    ∧ liveOwnerCount (ct_teamUuid env) db' = 1
    ∧ liveMemberships userId (ct_teamUuid env) db'
      = [(ct_membershipUuid env,
          DBTeamMembership.mk (ct_teamUuid env) userId owner (ct_now env) false)]
    ∧ ∃ teams, run (TeamDBImpl.findTeamsByUser userId) db' = (inr teams, db')
               ∧ (ct_teamUuid env, team) ∈ teams.
Proof.
  intros Hvalid Hteam Hmem Hnoref.
  destruct (run_createTeam_valid slugify env userId name db Hvalid Hteam Hmem)
    as (slug & Hslug & Hrun).
  eexists _, _. split; [exact Hrun|]. split; [done|]. split; [exact Hslug|].
  unfold with_membership, with_team. simpl.
  split; [|split; [|split]].
  - unfold TeamDBImpl.findTeamById. unfold_run. rewrite findTeamById_spec.
    rewrite lookup_insert_eq. by rewrite decide_True.
  - unfold liveOwnerCount, Repository.count. simpl.
    rewrite (find_insert_only _ _ _ _ Hmem); [done|done|].
    intros mid m Hm (Ht & _). by apply (Hnoref mid m Hm).
  - unfold liveMemberships. simpl. apply find_insert_only; [done|done|].
    intros mid m Hm (Ht & _). by apply (Hnoref mid m Hm).
  - match goal with |- context [run _ ?s] =>
      destruct (run_findTeamsByUser userId s) as (teams & Hr & _ & Hchar) end.
    exists teams. split; [exact Hr|]. apply Hchar. simpl.
    split; [apply lookup_insert_eq|]. split; [done|].
    eexists _, _. split; [apply lookup_insert_eq|]. done.
Qed.

Lemma createTeam_then_lookups_witness :
  ∃ team db',
    run (TeamDBImpl.createTeam Sample.slugify Sample.createEnv "u1" "Acme") Sample.oneOwner
    = (inr ("t9", team), db')
    ∧ DBTeam.slug team = "acme-9f3a01bc".
Proof.
  destruct (createTeam_then_lookups Sample.slugify Sample.createEnv "u1" "Acme"
              Sample.oneOwner)
    as (team & db' & Hrun & _ & Hslug & _).
  - split; [reflexivity|]. vm_compute. lia.
  - reflexivity.
  - reflexivity.
  - intros mid m Hm. unfold Sample.oneOwner in Hm. simpl in Hm.
    apply lookup_insert_Some in Hm as [[_ <-]|[_ Hm]]; [discriminate|].
    apply lookup_singleton_Some in Hm as [_ <-]. discriminate.
  - exists team, db'. split; [exact Hrun|].
    destruct Hslug as [[Hfree _]|[_ ->]]; [|reflexivity].
    destruct (Hfree "t1" Sample.acme); [reflexivity|by split|reflexivity].
Defined.

(** X14. The slug of an organization that has been marked deleted is free
    again. While the live organization [teamId] is the only one to hold the
    slug of a name, [createTeam] with that name appends the random suffix;
    after [deleteTeam] of it, [createTeam] gives the new organization the
    plain slug. *)
Theorem slug_reusable_after_deleteTeam (slugify : string → string) (env : CreateTeamEnv)
    (userId name teamId : string) (team : DBTeam.t) (db : Store) :
  validName slugify name →
  d_b_team db !! teamId = Some team → DBTeam.live team →
  DBTeam.slug team = slugify (JS.trim name) →
  (∀ k t, d_b_team db !! k = Some t → DBTeam.live t →
          DBTeam.slug t = slugify (JS.trim name) → k = teamId) →
  d_b_team db !! ct_teamUuid env = None →
  d_b_team_membership db !! ct_membershipUuid env = None →
  (∃ db1, run (TeamDBImpl.createTeam slugify env userId name) db
          = (inr (ct_teamUuid env,
                  DBTeam.mk (JS.trim name)
                    (slugify (JS.trim name) +:+ "-" +:+ ct_randomHex env)
                    (ct_now env) false false), db1))
  ∧ ∃ db2, run (TeamDBImpl.createTeam slugify env userId name)
             (run (TeamDBImpl.deleteTeam teamId) db).2
           = (inr (ct_teamUuid env,
                   DBTeam.mk (JS.trim name) (slugify (JS.trim name)) (ct_now env) false false),
              db2).
Proof.
  intros Hvalid Hteam Hlive Hslug Honly Hfresh Hmem. split.
  - destruct (run_createTeam_valid slugify env userId name db Hvalid Hfresh Hmem)
      as (slug & [[Hfree _]|[_ ->]] & Hrun).
    + by destruct (Hfree teamId team Hteam Hlive).
    + eexists. exact Hrun.
  - rewrite (run_deleteTeam_effect db teamId team) by done. cbn [snd].
    assert (teamId ≠ ct_teamUuid env) as Hne by (intros ->; congruence).
    match goal with |- context [run _ ?s] => set (db' := s) end.
    assert (d_b_team db' !! ct_teamUuid env = None) as Hfresh'
      by (unfold db'; simpl; by rewrite lookup_insert_ne).
    assert (d_b_team_membership db' !! ct_membershipUuid env = None) as Hmem' by done.
    destruct (run_createTeam_valid slugify env userId name db' Hvalid Hfresh' Hmem')
      as (slug & [[_ ->]|[(k & t & Hk & Hl & Hs) _]] & Hrun).
    + eexists. exact Hrun.
    + exfalso. unfold db' in Hk. simpl in Hk.
      destruct (decide (k = teamId)) as [->|Hk'].
      * rewrite lookup_insert_eq in Hk. inversion Hk; subst t. destruct Hl as [_ ?].
        discriminate.
      * rewrite lookup_insert_ne in Hk by done. by apply Hk', (Honly k t).
Qed.

Lemma slug_reusable_after_deleteTeam_witness :
  ∃ db2, run (TeamDBImpl.createTeam Sample.slugify Sample.createEnv "u2" "Acme")
           (run (TeamDBImpl.deleteTeam "t1") Sample.oneOwner).2
         = (inr ("t9", DBTeam.mk "Acme" "acme" "2023-02-01T00:00:00.000Z" false false), db2).
Proof.
  apply (slug_reusable_after_deleteTeam Sample.slugify Sample.createEnv "u2" "Acme" "t1"
           Sample.acme Sample.oneOwner); try reflexivity.
  - split; [reflexivity|]. vm_compute. lia.
  - by split.
  - intros k t Hk _ Hs. unfold Sample.oneOwner, Sample.teams in Hk. simpl in Hk.
    apply lookup_insert_Some in Hk as [[<- _]|[_ Hk]]; [done|].
    apply lookup_singleton_Some in Hk as [_ <-]. discriminate.
Defined.

(** ** Generic invites, continued *)

Lemma atMostOneValid_of_length (teamId : string) (db : Store) :
  length (validGenericInvites teamId db) ≤ 1 →
  atMostOneValid (d_b_team_membership_invite db) teamId.
Proof.
  intros Hone k1 k2 (i1 & Hl1 & Ht1 & Hv1) (i2 & Hl2 & Ht2 & Hv2).
  assert ((k1, i1) ∈ validGenericInvites teamId db) as H1 by (by apply elem_of_find).
  assert ((k2, i2) ∈ validGenericInvites teamId db) as H2 by (by apply elem_of_find).
  destruct (validGenericInvites teamId db) as [|x [|y l]]; simpl in Hone.
  - by apply not_elem_of_nil in H1.
  - apply list_elem_of_singleton in H1, H2. congruence.
  - lia.
Qed.

(** X15. After [resetGenericInvite], [findGenericInviteByTeamId] returns the
    invite that call created, provided the organization had at most one
    valid generic invite, the identifier drawn is new and the time stamp of
    the invalidation is not empty. *)
Theorem reset_then_findGeneric (env : ResetInviteEnv) (teamId : string) (db : Store) :
  length (validGenericInvites teamId db) ≤ 1 →
  d_b_team_membership_invite db !! ri_uuid env = None →
  ri_invalidatedAt env ≠ EmptyString →
  let db' := (run (TeamDBImpl.resetGenericInvite env teamId) db).2 in
  run (TeamDBImpl.findGenericInviteByTeamId teamId) db'
  = (inr (Some (ri_uuid env, freshInvite env teamId)), db').
Proof.
  intros Hone Hfresh Htime db'.
  pose proof (reset_step env teamId db Hfresh Htime (atMostOneValid_of_length _ _ Hone))
    as Hstep.
  fold db' in Hstep.
  unfold TeamDBImpl.findGenericInviteByTeamId. unfold_run.
  pose proof (findGeneric_spec (d_b_team_membership_invite db') teamId) as Hspec.
  destruct (head _) as [[k i]|].
  - destruct Hspec as (Hl & Ht & Hv).
    assert (k = ri_uuid env) as -> by (apply (stepped_only _ _ _ _ Hstep); by exists i).
    rewrite (stepped_new _ _ _ _ Hstep) in Hl. by inversion Hl.
  - destruct (Hspec (ri_uuid env)). exists (freshInvite env teamId).
    split; [apply (stepped_new _ _ _ _ Hstep)|]. by split.
Qed.

Lemma reset_then_findGeneric_witness :
  run (TeamDBImpl.findGenericInviteByTeamId "t1")
    (run (TeamDBImpl.resetGenericInvite Sample.reset1 "t1") Sample.oneOwner).2
  = (inr (Some ("i1", freshInvite Sample.reset1 "t1")),
     (run (TeamDBImpl.resetGenericInvite Sample.reset1 "t1") Sample.oneOwner).2).
Proof.
  apply (reset_then_findGeneric Sample.reset1 "t1" Sample.oneOwner).
  - vm_compute. lia.
  - reflexivity.
  - discriminate.
Defined.

(** X16. An invite that [resetGenericInvite] replaces stays retrievable:
    when the organization has exactly one valid generic invite and the
    identifier drawn is new, [findTeamMembershipInviteById] afterwards
    returns that invite under its old identifier, unchanged but for the
    [invalidationTime], which is the time stamp of the reset; and every other
    stored invite is returned as it was. *)
Theorem replaced_invite_still_found (env : ResetInviteEnv) (teamId : string)
    (k : string) (i : DBTeamMembershipInvite.t) (db : Store) :
  validGenericInvites teamId db = [(k, i)] →
  d_b_team_membership_invite db !! ri_uuid env = None →
  let db' := (run (TeamDBImpl.resetGenericInvite env teamId) db).2 in
  run (TeamDBImpl.findTeamMembershipInviteById k) db'
  = (inr (TeamDBImpl.set_invalidationTime (ri_invalidatedAt env) (k, i)), db')
  ∧ ∀ k' i', k' ≠ k → d_b_team_membership_invite db !! k' = Some i' →
             run (TeamDBImpl.findTeamMembershipInviteById k') db' = (inr (k', i'), db').
Proof.
  intros Honly Hfresh db'.
  assert ((k, i) ∈ validGenericInvites teamId db) as Hin by (rewrite Honly; left).
  apply elem_of_find in Hin as [[Ht Hv] Hl]. simpl in Ht, Hv.
  assert (k ≠ ri_uuid env) as Hne by (intros ->; congruence).
  assert (d_b_team_membership_invite db'
          = <[ri_uuid env := freshInvite env teamId]>
              (<[k := (TeamDBImpl.set_invalidationTime (ri_invalidatedAt env) (k, i)).2]>
                 (d_b_team_membership_invite db))) as Htbl.
  { unfold db'.
    destruct (run_resetGenericInvite env teamId db)
      as (tbl1 & [[-> Hnone]|(k0 & i0 & Hl0 & Ht0 & Hv0 & ->)] & ->).
    - destruct (Hnone k). by exists i.
    - assert ((k0, i0) ∈ validGenericInvites teamId db) as Hin0 by (by apply elem_of_find).
      rewrite Honly in Hin0. apply list_elem_of_singleton in Hin0. inversion Hin0; subst k0 i0.
      unfold with_invite, Repository.save. simpl.
      by rewrite lookup_insert_ne, Hfresh. }
  split.
  - unfold TeamDBImpl.findTeamMembershipInviteById. unfold_run. unfold Repository.findOneById.
    fold db'. rewrite Htbl, lookup_insert_ne, lookup_insert_eq by done. done.
  - intros k' i' Hk' Hl'.
    assert (k' ≠ ri_uuid env) as Hne' by (intros ->; congruence).
    unfold TeamDBImpl.findTeamMembershipInviteById. unfold_run. unfold Repository.findOneById.
    fold db'. rewrite Htbl, !lookup_insert_ne, Hl' by done. done.
Qed.

Lemma replaced_invite_still_found_witness :
  let db1 := (run (TeamDBImpl.resetGenericInvite Sample.reset1 "t1") Sample.oneOwner).2 in
  let db2 := (run (TeamDBImpl.resetGenericInvite Sample.reset2 "t1") db1).2 in
  run (TeamDBImpl.findTeamMembershipInviteById "i1") db2
  = (inr ("i1", DBTeamMembershipInvite.mk "t1" member "2023-03-01T00:00:00.001Z"
                  "2023-03-02T00:00:00.000Z" None), db2).
Proof.
  intros db1 db2.
  apply (proj1 (replaced_invite_still_found Sample.reset2 "t1" "i1"
                  (freshInvite Sample.reset1 "t1") db1 eq_refl eq_refl)).
Defined.

(** ** Organization settings, continued *)



(** * Further properties of the SSO client configuration store *)

Section GormFacts.
Implicit Types (conn : gmap OIDC.UUID OIDC.Row) (P : OIDC.UUID * OIDC.Row → Prop).

Global Instance byId_total : Total OIDC.byId.
Proof. intros a b. unfold OIDC.byId. lia. Qed.

Global Instance byId_trans : Transitive OIDC.byId.
Proof. intros a b c. unfold OIDC.byId. lia. Qed.

Lemma elem_of_Where P `{∀ r, Decision (P r)} conn k r :
  (k, r) ∈ OIDC.Where P conn ↔ P (k, r) ∧ conn !! k = Some r.
Proof. unfold OIDC.Where. by rewrite list_elem_of_filter, elem_of_map_to_list. Qed.

Lemma NoDup_Where P `{∀ r, Decision (P r)} conn : NoDup (OIDC.Where P conn).
Proof. apply NoDup_filter, NoDup_map_to_list. Qed.

Lemma Where_ext P Q `{∀ r, Decision (P r)} `{∀ r, Decision (Q r)} conn :
  (∀ r, P r ↔ Q r) → OIDC.Where P conn = OIDC.Where Q conn.
Proof. intros HPQ. unfold OIDC.Where. by apply list_filter_iff. Qed.

(** Clauses that fix the primary key select at most the row of that key. *)
Lemma Where_by_key P `{∀ r, Decision (P r)} (Q : OIDC.Row → Prop) `{∀ v, Decision (Q v)}
    (id : OIDC.UUID) conn :
  (∀ r, P r ↔ r.1 = id ∧ Q r.2) →
  OIDC.Where P conn =
    match conn !! id with
    | Some v => if decide (Q v) then [(id, v)] else []
    | None => []
    end.
Proof.
  intros HP.
  assert (∀ k r, (k, r) ∈ OIDC.Where P conn → k = id ∧ Q r ∧ conn !! id = Some r) as Hin.
  { intros k r [HPr Hl]%elem_of_Where. apply HP in HPr as [Hk HQ]. simpl in *. by subst k. }
  assert (∀ v, conn !! id = Some v → Q v → OIDC.Where P conn = [(id, v)]) as Hone.
  { intros v Hl HQ. apply NoDup_all_equal; [apply NoDup_Where| |].
    - apply elem_of_Where. split; [by apply HP|done].
    - intros [k r] Hkr. destruct (Hin k r Hkr) as (-> & _ & Hl'). congruence. }
  assert (∀ l, OIDC.Where P conn = l → (∀ x, x ∉ l) → OIDC.Where P conn = []) as Hnil.
  { intros [|x l] Heq Hno; [done|]. destruct (Hno x). left. }
  destruct (conn !! id) as [v|] eqn:Hid.
  - destruct (decide (Q v)) as [HQ|HQ]; [by apply Hone|].
    apply (Hnil _ eq_refl). intros [k r] Hkr. destruct (Hin k r Hkr) as (_ & HQ' & Hl).
    congruence.
  - apply (Hnil _ eq_refl). intros [k r] Hkr. destruct (Hin k r Hkr) as (_ & _ & Hl).
    congruence.
Qed.

Lemma First_by_key P `{∀ r, Decision (P r)} (Q : OIDC.Row → Prop) `{∀ v, Decision (Q v)}
    (id : OIDC.UUID) conn :
  (∀ r, P r ↔ r.1 = id ∧ Q r.2) →
  OIDC.First P conn =
    match conn !! id with
    | Some v => if decide (Q v) then Some (id, v) else None
    | None => None
    end.
Proof.
  intros HP. unfold OIDC.First, OIDC.Find_ordered.
  rewrite (Where_by_key P Q id conn HP).
  destruct (conn !! id) as [v|]; [|done]. by destruct (decide (Q v)).
Qed.

Lemma elem_of_Find_ordered P `{∀ r, Decision (P r)} conn k r :
  (k, r) ∈ OIDC.Find_ordered P conn ↔ P (k, r) ∧ conn !! k = Some r.
Proof.
  unfold OIDC.Find_ordered. rewrite merge_sort_Permutation. apply elem_of_Where.
Qed.

Lemma lookup_Update P `{∀ r, Decision (P r)} (f : OIDC.Row → OIDC.Row) conn k :
  (OIDC.Update P f conn).1 !! k
  = (λ r, if decide (P (k, r)) then f r else r) <$> conn !! k.
Proof.
  unfold OIDC.Update. simpl. rewrite map_lookup_imap.
  by destruct (conn !! k).
Qed.

(** An update whose clauses fix the primary key rewrites at most that row. *)
Lemma Update_by_key P `{∀ r, Decision (P r)} (Q : OIDC.Row → Prop) `{∀ v, Decision (Q v)}
    (f : OIDC.Row → OIDC.Row) (id : OIDC.UUID) conn :
  (∀ r, P r ↔ r.1 = id ∧ Q r.2) →
  OIDC.Update P f conn =
    match conn !! id with
    | Some v => if decide (Q v) then (<[id := f v]> conn, 1) else (conn, 0)
    | None => (conn, 0)
    end.
Proof.
  intros HP.
  assert (OIDC.Update P f conn = ((OIDC.Update P f conn).1, length (OIDC.Where P conn)))
    as -> by done.
  rewrite (Where_by_key P Q id conn HP).
  assert (∀ k, k ≠ id → (OIDC.Update P f conn).1 !! k = conn !! k) as Hother.
  { intros k Hne. rewrite lookup_Update. destruct (conn !! k) as [r|]; [|done]. simpl.
    rewrite decide_False; [done|]. intros [Hk _]%HP. done. }
  assert ((OIDC.Update P f conn).1
          = match conn !! id with
            | Some v => if decide (Q v) then <[id := f v]> conn else conn
            | None => conn
            end) as ->.
  { apply map_eq. intros k. destruct (decide (k = id)) as [->|Hne].
    - rewrite lookup_Update. destruct (conn !! id) as [v|] eqn:Hid; [|by rewrite Hid].
      simpl. destruct (decide (Q v)) as [HQ|HQ].
      + rewrite lookup_insert_eq. rewrite decide_True; [done|]. by apply HP.
      + rewrite Hid. rewrite decide_False; [done|]. intros [_ HQ']%HP. done.
    - rewrite (Hother k Hne). destruct (conn !! id) as [v|]; [|done].
      destruct (decide (Q v)); [|done]. by rewrite lookup_insert_ne. }
  destruct (conn !! id) as [v|]; [|done]. by destruct (decide (Q v)).
Qed.
End GormFacts.

(** What [GetOIDCClientConfig] returns for an identifier that is not nil. *)
Lemma GetOIDCClientConfig_spec (conn : gmap OIDC.UUID OIDC.Row) (id : OIDC.UUID) :
  id ≠ OIDC.uuid_Nil →
  OIDC.GetOIDCClientConfig conn id =
    match conn !! id with
    | Some row =>
      if decide (OIDC.deleted row = false) then inr (OIDC.toConfig (id, row))
      else inl (OIDC.Errorf_w_ErrorNotFound "OIDC Client Config with ID %s does not exist: %w")
    | None => inl (OIDC.Errorf_w_ErrorNotFound "OIDC Client Config with ID %s does not exist: %w")
    end.
Proof.
  intros Hid. unfold OIDC.GetOIDCClientConfig. rewrite bool_decide_eq_false_2 by done.
  rewrite (First_by_key _ (λ v, OIDC.deleted v = false) id) by done.
  destruct (conn !! id) as [row|]; [|done]. by destruct (decide _).
Qed.

(** X18. [GetOIDCClientConfig] returns a configuration exactly for an
    identifier that is not nil and names a row that is not deleted, and then
    the fields of that row. A nil identifier is an argument error; a row
    that is absent or deleted gives an error that wraps [ErrorNotFound]. *)
Theorem GetOIDCClientConfig_cases (conn : gmap OIDC.UUID OIDC.Row) (id : OIDC.UUID) :
  match OIDC.GetOIDCClientConfig conn id with
  | inr config =>
    id ≠ OIDC.uuid_Nil
    ∧ ∃ row, conn !! id = Some row ∧ OIDC.deleted row = false
             ∧ config = OIDC.toConfig (id, row)
  | inl err =>
    (id = OIDC.uuid_Nil ∧ OIDC.errors_Is_ErrorNotFound err = false)
    ∨ (id ≠ OIDC.uuid_Nil ∧ OIDC.errors_Is_ErrorNotFound err = true
       ∧ (conn !! id = None ∨ ∃ row, conn !! id = Some row ∧ OIDC.deleted row = true))
  end.
Proof.
  destruct (decide (id = OIDC.uuid_Nil)) as [->|Hid].
  { unfold OIDC.GetOIDCClientConfig. rewrite bool_decide_eq_true_2 by done. by left. }
  rewrite GetOIDCClientConfig_spec by done.
  destruct (conn !! id) as [row|] eqn:Hrow.
  - destruct (decide (OIDC.deleted row = false)) as [Hd|Hd].
    + split; [done|]. by exists row.
    + right. split; [done|]. split; [done|]. right. exists row. split; [done|].
      by destruct (OIDC.deleted row).
  - right. split; [done|]. split; [done|]. by left.
Qed.

(** X19. What [CreateOIDCClientConfig] stores, [GetOIDCClientConfig] reads
    back: the configuration with the fields of the input, and with the
    current time where the input leaves [LastModified] at its zero value.
    The configurations under other identifiers read as before. *)
Theorem Create_then_Get (now : Z) (conn : gmap OIDC.UUID OIDC.Row)
    (cfg : OIDC.OIDCClientConfig) :
  OIDC.ID cfg ≠ OIDC.uuid_Nil → OIDC.Issuer cfg ≠ EmptyString →
  conn !! OIDC.ID cfg = None →
  ∃ conn',
    OIDC.CreateOIDCClientConfig now conn cfg = (inr cfg, conn')
    ∧ OIDC.GetOIDCClientConfig conn' (OIDC.ID cfg)
      = inr (OIDC.mkOIDCClientConfig (OIDC.ID cfg) (OIDC.OrganizationID cfg) (OIDC.Issuer cfg)
               (OIDC.Data cfg) (OIDC.Active cfg)
               (if bool_decide (OIDC.LastModified cfg = 0%Z) then now
                else OIDC.LastModified cfg))
    ∧ ∀ id, id ≠ OIDC.ID cfg →
            OIDC.GetOIDCClientConfig conn' id = OIDC.GetOIDCClientConfig conn id.
Proof.
  intros Hid Hiss Hfree. unfold OIDC.CreateOIDCClientConfig, OIDC.Create.
  rewrite !bool_decide_eq_false_2 by done. rewrite Hfree.
  eexists. split; [reflexivity|]. split.
  - rewrite GetOIDCClientConfig_spec by done. rewrite lookup_insert_eq. simpl. done.
  - intros id Hne. destruct (decide (id = OIDC.uuid_Nil)) as [->|Hid'].
    + unfold OIDC.GetOIDCClientConfig. by rewrite !bool_decide_eq_true_2.
    + rewrite !GetOIDCClientConfig_spec by done. by rewrite lookup_insert_ne.
Qed.

Lemma Create_then_Get_witness :
  ∃ conn',
    OIDC.CreateOIDCClientConfig 1700000000000000 ∅ Sample.ssoConfig
    = (inr Sample.ssoConfig, conn')
    ∧ ∃ config, OIDC.GetOIDCClientConfig conn' 7%N = inr config
                ∧ OIDC.LastModified config = 1700000000000000%Z.
Proof.
  destruct (Create_then_Get 1700000000000000 ∅ Sample.ssoConfig)
    as (conn' & Hrun & Hget & _); [discriminate|discriminate|reflexivity|].
  exists conn'. split; [exact Hrun|]. eexists. split; [exact Hget|reflexivity].
Defined.

(** What [DeleteOIDCClientConfig] does for arguments that are not nil. *)
Lemma DeleteOIDCClientConfig_spec (conn : gmap OIDC.UUID OIDC.Row) (id org : OIDC.UUID) :
  id ≠ OIDC.uuid_Nil → org ≠ OIDC.uuid_Nil →
  OIDC.DeleteOIDCClientConfig conn id org =
    match conn !! id with
    | Some row =>
      if decide (OIDC.organizationId row = org ∧ OIDC.deleted row = false)
      then (None, <[id := OIDC.set_deleted row]> conn)
      else (Some (OIDC.Errorf_w_ErrorNotFound
                    "oidc client config ID: %s for organization ID: %s does not exist: %w"),
            conn)
    | None =>
      (Some (OIDC.Errorf_w_ErrorNotFound
               "oidc client config ID: %s for organization ID: %s does not exist: %w"), conn)
    end.
Proof.
  intros Hid Horg. unfold OIDC.DeleteOIDCClientConfig.
  rewrite !bool_decide_eq_false_2 by done.
  rewrite (Update_by_key _ (λ v, OIDC.organizationId v = org ∧ OIDC.deleted v = false)
             _ id) by done.
  destruct (conn !! id) as [row|]; [|done]. by destruct (decide _).
Qed.

(** X20. [DeleteOIDCClientConfig] is a soft delete scoped to the
    organization. With arguments that are not nil it succeeds exactly when
    the identifier names a row of that organization that is not deleted; it
    then sets [deleted] on that row and changes nothing else. In every other
    case, the row of another organization included, it returns an error that
    wraps [ErrorNotFound] and leaves the table as it was. *)
Theorem DeleteOIDCClientConfig_scoped (conn : gmap OIDC.UUID OIDC.Row) (id org : OIDC.UUID) :
  id ≠ OIDC.uuid_Nil → org ≠ OIDC.uuid_Nil →
  (∃ row, conn !! id = Some row ∧ OIDC.organizationId row = org ∧ OIDC.deleted row = false
          ∧ OIDC.DeleteOIDCClientConfig conn id org
            = (None, <[id := OIDC.set_deleted row]> conn))
  ∨ ((conn !! id = None
      ∨ ∃ row, conn !! id = Some row
               ∧ (OIDC.organizationId row ≠ org ∨ OIDC.deleted row = true))
     ∧ ∃ err, OIDC.DeleteOIDCClientConfig conn id org = (Some err, conn)
              ∧ OIDC.errors_Is_ErrorNotFound err = true).
Proof.
  intros Hid Horg. rewrite DeleteOIDCClientConfig_spec by done.
  destruct (conn !! id) as [row|] eqn:Hrow.
  - destruct (decide _) as [[Ho Hd]|Hno].
    + left. by exists row.
    + right. split; [|by eexists]. right. exists row. split; [done|].
      destruct (decide (OIDC.organizationId row = org)) as [Ho|Ho]; [|by left].
      right. destruct (OIDC.deleted row); [done|]. by destruct Hno.
  - right. split; [by left|by eexists].
Qed.

Lemma DeleteOIDCClientConfig_scoped_witness :
  ∃ err, OIDC.DeleteOIDCClientConfig
           (OIDC.CreateOIDCClientConfig 1700000000000000 ∅ Sample.ssoConfig).2 7%N 2%N
         = (Some err, (OIDC.CreateOIDCClientConfig 1700000000000000 ∅ Sample.ssoConfig).2)
         ∧ OIDC.errors_Is_ErrorNotFound err = true.
Proof.
  destruct (DeleteOIDCClientConfig_scoped
              (OIDC.CreateOIDCClientConfig 1700000000000000 ∅ Sample.ssoConfig).2 7%N 2%N)
    as [(row & Hrow & Horg & _)|[_ Herr]]; [discriminate|discriminate| |exact Herr].
  vm_compute in Hrow. inversion Hrow; subst row. discriminate.
Defined.

(** X21. After a successful [DeleteOIDCClientConfig] the configuration is
    gone for the readers and for a second delete: [GetOIDCClientConfig],
    [GetOIDCClientConfigForOrganization] and a repeated
    [DeleteOIDCClientConfig] all return an error that wraps [ErrorNotFound],
    and the repeated delete changes nothing. *)
Theorem Delete_then_not_found (conn conn' : gmap OIDC.UUID OIDC.Row) (id org : OIDC.UUID) :
  OIDC.DeleteOIDCClientConfig conn id org = (None, conn') →
  (∃ err, OIDC.GetOIDCClientConfig conn' id = inl err
          ∧ OIDC.errors_Is_ErrorNotFound err = true)
  ∧ (∃ err, OIDC.GetOIDCClientConfigForOrganization conn' id org = inl err
            ∧ OIDC.errors_Is_ErrorNotFound err = true)
  ∧ (∃ err, OIDC.DeleteOIDCClientConfig conn' id org = (Some err, conn')
            ∧ OIDC.errors_Is_ErrorNotFound err = true).
Proof.
  intros Hdel.
  assert (id ≠ OIDC.uuid_Nil ∧ org ≠ OIDC.uuid_Nil) as [Hid Horg].
  { unfold OIDC.DeleteOIDCClientConfig in Hdel.
    destruct (decide (id = OIDC.uuid_Nil)) as [->|Hid];
      [by rewrite bool_decide_eq_true_2 in Hdel|].
    rewrite (bool_decide_eq_false_2 _ Hid) in Hdel.
    destruct (decide (org = OIDC.uuid_Nil)) as [->|Horg];
      [by rewrite bool_decide_eq_true_2 in Hdel|done]. }
  rewrite DeleteOIDCClientConfig_spec in Hdel by done.
  destruct (conn !! id) as [row|] eqn:Hrow; [|discriminate].
  destruct (decide _) as [[Ho Hd]|?]; [|discriminate].
  inversion Hdel; subst conn'. clear Hdel.
  split; [|split].
  - rewrite GetOIDCClientConfig_spec, lookup_insert_eq by done. simpl. by eexists.
  - unfold OIDC.GetOIDCClientConfigForOrganization. rewrite !bool_decide_eq_false_2 by done.
    rewrite (First_by_key _ (λ v, OIDC.organizationId v = org ∧ OIDC.deleted v = false) id)
      by done.
    rewrite lookup_insert_eq. rewrite decide_False by (simpl; intros [_ ?]; discriminate).
    by eexists.
  - rewrite DeleteOIDCClientConfig_spec, lookup_insert_eq by done.
    rewrite decide_False by (simpl; intros [_ ?]; discriminate). by eexists.
Qed.

Lemma Delete_then_not_found_witness :
  let conn := (OIDC.CreateOIDCClientConfig 1700000000000000 ∅ Sample.ssoConfig).2 in
  ∃ err, OIDC.GetOIDCClientConfig (OIDC.DeleteOIDCClientConfig conn 7%N 1%N).2 7%N = inl err
         ∧ OIDC.errors_Is_ErrorNotFound err = true.
Proof.
  intros conn.
  apply (proj1 (Delete_then_not_found conn (OIDC.DeleteOIDCClientConfig conn 7%N 1%N).2
                  7%N 1%N eq_refl)).
Defined.

(** X22. [ActivateClientConfig] of a configuration that is stored and not
    deleted sets its [active] flag and nothing else: the other fields of the
    row and all other rows, active or not, stay as they are, and
    [GetOIDCClientConfig] then reports the configuration as active. For an
    identifier that is nil, absent or deleted it returns the error of
    [GetOIDCClientConfig] and changes nothing. *)
Theorem ActivateClientConfig_sets_one_flag (conn : gmap OIDC.UUID OIDC.Row) (id : OIDC.UUID) :
  match OIDC.GetOIDCClientConfig conn id with
  | inl err => OIDC.ActivateClientConfig conn id = (Some err, conn)
  | inr config =>
    ∃ row, conn !! id = Some row
           ∧ OIDC.ActivateClientConfig conn id = (None, <[id := OIDC.set_active row]> conn)
           ∧ OIDC.GetOIDCClientConfig (<[id := OIDC.set_active row]> conn) id
             = inr (OIDC.mkOIDCClientConfig (OIDC.ID config) (OIDC.OrganizationID config)
                      (OIDC.Issuer config) (OIDC.Data config) true
                      (OIDC.LastModified config))
  end.
Proof.
  unfold OIDC.ActivateClientConfig.
  destruct (OIDC.GetOIDCClientConfig conn id) as [err|config] eqn:Hget; [done|].
  destruct (decide (id = OIDC.uuid_Nil)) as [->|Hid].
  { unfold OIDC.GetOIDCClientConfig in Hget. by rewrite bool_decide_eq_true_2 in Hget. }
  rewrite GetOIDCClientConfig_spec in Hget by done.
  destruct (conn !! id) as [row|] eqn:Hrow; [|discriminate].
  destruct (decide (OIDC.deleted row = false)) as [Hd|Hd]; [|discriminate].
  inversion Hget; subst config. clear Hget. exists row. split; [done|]. split.
  - rewrite (Update_by_key _ (λ _, True) _ id) by (intros r; tauto).
    by rewrite Hrow.
  - rewrite GetOIDCClientConfig_spec, lookup_insert_eq by done. simpl.
    by rewrite decide_True.
Qed.

(** X23. [ListOIDCClientConfigsForOrganization] returns the configurations
    of the organization that are not deleted, each once, in strictly
    ascending order of their identifiers; a nil organization is an argument
    error. *)
Theorem ListOIDCClientConfigs_sorted (conn : gmap OIDC.UUID OIDC.Row) (org : OIDC.UUID) :
  (org = OIDC.uuid_Nil
   ∧ ∃ err, OIDC.ListOIDCClientConfigsForOrganization conn org = inl err)
  ∨ (org ≠ OIDC.uuid_Nil
     ∧ ∃ results, OIDC.ListOIDCClientConfigsForOrganization conn org = inr results
         ∧ StronglySorted (λ a b, (OIDC.ID a < OIDC.ID b)%N) results
         ∧ ∀ config, config ∈ results
             ↔ ∃ row, conn !! OIDC.ID config = Some row
                      ∧ OIDC.organizationId row = org ∧ OIDC.deleted row = false
                      ∧ config = OIDC.toConfig (OIDC.ID config, row)).
Proof.
  unfold OIDC.ListOIDCClientConfigsForOrganization.
  destruct (decide (org = OIDC.uuid_Nil)) as [->|Horg].
  { left. rewrite bool_decide_eq_true_2 by done. split; [done|]. by eexists. }
  right. split; [done|]. rewrite bool_decide_eq_false_2 by done.
  eexists. split; [reflexivity|].
  set (P := λ r : OIDC.UUID * OIDC.Row,
              OIDC.organizationId r.2 = org ∧ OIDC.deleted r.2 = false).
  set (rows := OIDC.Find_ordered P conn).
  assert (StronglySorted OIDC.byId rows) as Hsorted
    by apply (StronglySorted_merge_sort OIDC.byId).
  assert (NoDup rows.*1) as Hnd.
  { unfold rows, OIDC.Find_ordered. rewrite merge_sort_Permutation.
    apply NoDup_fmap_2_strong; [|apply NoDup_Where].
    intros [k1 r1] [k2 r2] [_ H1]%elem_of_Where [_ H2]%elem_of_Where Heq.
    simpl in Heq. subst k2. congruence. }
  split.
  - clear -Hsorted Hnd. induction Hsorted as [|a l Hs IH Hall]; [constructor|].
    rewrite fmap_cons in Hnd. apply NoDup_cons in Hnd as [Hnotin Hnd].
    rewrite fmap_cons. constructor; [by apply IH|].
    apply Forall_fmap. apply Forall_forall. intros b Hb. simpl.
    rewrite Forall_forall in Hall. specialize (Hall b Hb). unfold OIDC.byId in Hall.
    assert (a.1 ≠ b.1) as Hne.
    { intros Heq. apply Hnotin. rewrite Heq. by apply list_elem_of_fmap_2. }
    lia.
  - intros config. rewrite list_elem_of_fmap. split.
    + intros ([k r] & -> & Hin). apply elem_of_Find_ordered in Hin as [[Ho Hd] Hl].
      exists r. by simpl in *.
    + intros (row & Hl & Ho & Hd & Heq). exists (OIDC.ID config, row).
      split; [done|]. by apply elem_of_Find_ordered.
Qed.

(** X24. [GetOIDCClientConfigForOrganization] agrees with
    [GetOIDCClientConfig] on the configurations of the organization, and
    returns an error that wraps [ErrorNotFound] for a configuration that
    belongs to another organization. *)
Theorem GetForOrganization_scoped (conn : gmap OIDC.UUID OIDC.Row) (id org : OIDC.UUID) :
  id ≠ OIDC.uuid_Nil → org ≠ OIDC.uuid_Nil →
  match OIDC.GetOIDCClientConfig conn id with
  | inr config =>
    if decide (OIDC.OrganizationID config = org)
    then OIDC.GetOIDCClientConfigForOrganization conn id org = inr config
    else ∃ err, OIDC.GetOIDCClientConfigForOrganization conn id org = inl err
                ∧ OIDC.errors_Is_ErrorNotFound err = true
  | inl _ =>
    ∃ err, OIDC.GetOIDCClientConfigForOrganization conn id org = inl err
           ∧ OIDC.errors_Is_ErrorNotFound err = true
  end.
Proof.
  intros Hid Horg. rewrite GetOIDCClientConfig_spec by done.
  unfold OIDC.GetOIDCClientConfigForOrganization. rewrite !bool_decide_eq_false_2 by done.
  rewrite (First_by_key _ (λ v, OIDC.organizationId v = org ∧ OIDC.deleted v = false) id)
    by done.
  destruct (conn !! id) as [row|]; [|by eexists].
  destruct (decide (OIDC.deleted row = false)) as [Hd|Hd].
  - simpl. destruct (decide (OIDC.organizationId row = org)) as [Ho|Ho].
    + by rewrite decide_True.
    + rewrite decide_False by (by intros [? _]). by eexists.
  - rewrite decide_False by (by intros [_ ?]). by eexists.
Qed.

Lemma GetForOrganization_scoped_witness :
  let conn := (OIDC.CreateOIDCClientConfig 1700000000000000 ∅ Sample.ssoConfig).2 in
  ∃ err, OIDC.GetOIDCClientConfigForOrganization conn 7%N 2%N = inl err
         ∧ OIDC.errors_Is_ErrorNotFound err = true.
Proof.
  intros conn.
  pose proof (GetForOrganization_scoped conn 7%N 2%N) as H.
  assert (∃ c, OIDC.GetOIDCClientConfig conn 7%N = inr c ∧ OIDC.OrganizationID c = 1%N)
    as (c & Hc & Ho) by (eexists; split; reflexivity).
  rewrite Hc in H. rewrite decide_False in H by (rewrite Ho; discriminate).
  apply H; discriminate.
Defined.

Lemma First_cases (P : OIDC.UUID * OIDC.Row → Prop) `{∀ r, Decision (P r)}
    (conn : gmap OIDC.UUID OIDC.Row) :
  match OIDC.First P conn with
  | Some (id, row) =>
    conn !! id = Some row ∧ P (id, row)
    ∧ ∀ k r, conn !! k = Some r → P (k, r) → (id ≤ k)%N
  | None => ∀ k r, conn !! k = Some r → ¬ P (k, r)
  end.
Proof.
  unfold OIDC.First.
  pose proof (StronglySorted_merge_sort OIDC.byId (OIDC.Where P conn)) as Hsorted.
  fold (OIDC.Find_ordered P conn) in Hsorted.
  pose proof (λ k r, elem_of_Find_ordered P conn k r) as Hin.
  destruct (OIDC.Find_ordered P conn) as [|[id row] l]; simpl.
  - intros k r Hl HP.
    assert ((k, r) ∈ @nil (OIDC.UUID * OIDC.Row)) as Hnil by (apply Hin; done).
    by apply not_elem_of_nil in Hnil.
  - destruct (proj1 (Hin id row)) as [HP Hl]; [left|].
    split; [done|]. split; [done|]. intros k r Hk HPk.
    assert ((k, r) ∈ (id, row) :: l) as Hkr by (apply Hin; done).
    apply elem_of_cons in Hkr as [Heq|Hkr]; [inversion Heq; lia|].
    apply StronglySorted_inv in Hsorted as [_ Hall].
    rewrite Forall_forall in Hall. apply (Hall (k, r) Hkr).
Qed.

(** X25. [GetOIDCClientConfigByOrgSlug] returns a configuration that is not
    deleted and belongs to an organization stored under the given slug, the
    one with the least identifier among those. When there is none, or the
    slug is empty, its error does not wrap [ErrorNotFound]. *)
Theorem GetByOrgSlug_cases (uuid_String : OIDC.UUID → string)
    (teams : gmap string DBTeam.t) (conn : gmap OIDC.UUID OIDC.Row) (slug : string) :
  match OIDC.GetOIDCClientConfigByOrgSlug uuid_String teams conn slug with
  | inr config =>
    slug ≠ EmptyString
    ∧ ∃ row team,
        conn !! OIDC.ID config = Some row ∧ OIDC.deleted row = false
        ∧ config = OIDC.toConfig (OIDC.ID config, row)
        ∧ teams !! uuid_String (OIDC.organizationId row) = Some team
        ∧ DBTeam.slug team = slug
        ∧ ∀ k r team', conn !! k = Some r → OIDC.deleted r = false →
            teams !! uuid_String (OIDC.organizationId r) = Some team' →
            DBTeam.slug team' = slug → (OIDC.ID config ≤ k)%N
  | inl err =>
    OIDC.errors_Is_ErrorNotFound err = false
    ∧ (slug = EmptyString
       ∨ ∀ k r team', conn !! k = Some r → OIDC.deleted r = false →
           teams !! uuid_String (OIDC.organizationId r) = Some team' →
           DBTeam.slug team' ≠ slug)
  end.
Proof.
  unfold OIDC.GetOIDCClientConfigByOrgSlug.
  destruct (decide (slug = EmptyString)) as [->|Hslug].
  { rewrite bool_decide_eq_true_2 by done. split; [done|by left]. }
  rewrite bool_decide_eq_false_2 by done.
  match goal with |- context [OIDC.First ?P conn] =>
    pose proof (First_cases P conn) as Hfirst; destruct (OIDC.First P conn) as [[id row]|] end.
  - destruct Hfirst as (Hl & [Hs Hd] & Hmin). simpl in Hs, Hd. split; [done|].
    destruct (teams !! uuid_String (OIDC.organizationId row)) as [team|] eqn:Hteam;
      [|discriminate].
    exists row, team. simpl. do 4 (split; [done|]). split; [by inversion Hs|].
    intros k r team' Hk Hdk Hteam' Hslug'. apply (Hmin k r Hk). simpl.
    rewrite Hteam'. simpl. by rewrite Hslug'.
  - split; [done|]. right. intros k r team' Hk Hdk Hteam' Hslug'.
    apply (Hfirst k r Hk). simpl. rewrite Hteam'. simpl. by rewrite Hslug'.
Qed.

(** X26. Marking an organization deleted does not take its SSO
    configuration out of reach: [GetOIDCClientConfigByOrgSlug] on the
    organization table after [deleteTeam] returns what it returned
    before. *)
Theorem GetByOrgSlug_ignores_deleteTeam (uuid_String : OIDC.UUID → string)
    (db : Store) (teamId : string) (conn : gmap OIDC.UUID OIDC.Row) (slug : string) :
  OIDC.GetOIDCClientConfigByOrgSlug uuid_String
    (d_b_team (run (TeamDBImpl.deleteTeam teamId) db).2) conn slug
  = OIDC.GetOIDCClientConfigByOrgSlug uuid_String (d_b_team db) conn slug.
Proof.
  destruct (d_b_team db !! teamId) as [team|] eqn:Hteam.
  2: { rewrite (run_deleteTeam_absent db teamId) by (by left). done. }
  destruct (decide (DBTeam.live team)) as [Hlive|Hdead].
  2: { rewrite (run_deleteTeam_absent db teamId) by (right; by exists team). done. }
  rewrite (run_deleteTeam_effect db teamId team) by done. cbn [snd d_b_team].
  unfold OIDC.GetOIDCClientConfigByOrgSlug. destruct (bool_decide (slug = EmptyString)); [done|].
  unfold OIDC.First, OIDC.Find_ordered.
  rewrite (Where_ext _
    (λ r : OIDC.UUID * OIDC.Row,
       DBTeam.slug <$> d_b_team db !! uuid_String (OIDC.organizationId r.2) = Some slug
       ∧ OIDC.deleted r.2 = false)); [done|].
  intros r.
  destruct (decide (uuid_String (OIDC.organizationId r.2) = teamId)) as [->|Hne].
  - rewrite lookup_insert_eq, Hteam. done.
  - by rewrite lookup_insert_ne.
Qed.

(** * The members of an organization *)

Section ArraySort.
Context {A : Type} (cmp : A → A → Z).

Lemma sort_insert_Permutation (x : A) (l : list A) : JS.sort_insert cmp x l ≡ₚ x :: l.
Proof.
  induction l as [|y l IH]; simpl; [done|].
  destruct (cmp x y <=? 0)%Z; [done|]. rewrite IH. apply Permutation_swap.
Qed.

Lemma sort_Permutation (l : list A) : JS.sort cmp l ≡ₚ l.
Proof.
  induction l as [|x l IH]; simpl; [done|]. by rewrite sort_insert_Permutation, IH.
Qed.

Hypothesis cmp_consistent : ∀ x y, (0 < cmp x y)%Z → (cmp y x ≤ 0)%Z.

Lemma sort_insert_Sorted (x : A) (l : list A) :
  Sorted (λ a b, (cmp a b ≤ 0)%Z) l → Sorted (λ a b, (cmp a b ≤ 0)%Z) (JS.sort_insert cmp x l).
Proof.
  induction l as [|y l IH]; simpl; intros Hs; [by repeat constructor|].
  destruct (cmp x y <=? 0)%Z eqn:Hle.
  - constructor; [done|]. constructor. by apply Z.leb_le.
  - apply Z.leb_gt in Hle. apply Sorted_inv in Hs as [Hs Hhd].
    constructor; [by apply IH|].
    destruct l as [|z l]; simpl.
    + constructor. by apply cmp_consistent.
    + destruct (cmp x z <=? 0)%Z.
      * constructor. by apply cmp_consistent.
      * constructor. by apply HdRel_inv in Hhd.
Qed.

Lemma sort_Sorted (l : list A) : Sorted (λ a b, (cmp a b ≤ 0)%Z) (JS.sort cmp l).
Proof.
  induction l as [|x l IH]; simpl; [constructor|]. by apply sort_insert_Sorted.
Qed.
End ArraySort.

Lemma Sorted_weaken {A} (R R' : A → A → Prop) (l : list A) :
  (∀ a b, R a b → R' a b) → Sorted R l → Sorted R' l.
Proof.
  intros HR Hs. induction Hs as [|a l Hs IH Hhd]; constructor; [done|].
  destruct Hhd; constructor. by apply HR.
Qed.

Lemma String_ltb_asym (s1 s2 : string) : String.ltb s1 s2 = true → String.ltb s2 s1 = false.
Proof.
  unfold String.ltb. rewrite (String.compare_antisym s1 s2).
  by destruct (String.compare s2 s1).
Qed.

Lemma byMemberSince_consistent (a b : TeamMemberInfo) :
  (0 < TeamDBImpl.byMemberSince a b)%Z → (TeamDBImpl.byMemberSince b a ≤ 0)%Z.
Proof.
  unfold TeamDBImpl.byMemberSince.
  destruct (String.ltb (info_memberSince a) (info_memberSince b)) eqn:Hlt.
  - intros _. rewrite (String_ltb_asym _ _ Hlt).
    by destruct (String.eqb (info_memberSince b) (info_memberSince a)).
  - destruct (String.eqb (info_memberSince a) (info_memberSince b)); lia.
Qed.

Lemma byMemberSince_le (a b : TeamMemberInfo) :
  (TeamDBImpl.byMemberSince a b ≤ 0)%Z →
  String.ltb (info_memberSince a) (info_memberSince b) = false.
Proof.
  unfold TeamDBImpl.byMemberSince.
  destruct (String.ltb (info_memberSince a) (info_memberSince b)); [lia|done].
Qed.

Section Members.
Variable d_b_user : gmap string DBUser.t.
Variable getPrimaryEmail : string * DBUser.t → option string.

(** The non-null assertion of the source holds: a user whose id is among the
    user ids of the memberships has a first membership. *)
Lemma memberInfo_Some (memberships : list (string * DBTeamMembership.t))
    (u : string * DBUser.t) :
  u.1 ∈ map (λ m : string * DBTeamMembership.t, DBTeamMembership.userId m.2) memberships →
  ∃ info m,
    TeamDBImpl.memberInfo getPrimaryEmail memberships u = Some info
    ∧ m ∈ memberships
    ∧ DBTeamMembership.userId m.2 = u.1
    ∧ info_userId info = u.1
    ∧ info_role info = DBTeamMembership.role m.2
    ∧ info_memberSince info = DBTeamMembership.creationTime m.2.
Proof.
  intros Hin. unfold TeamDBImpl.memberInfo.
  destruct (List.find _ memberships) as [m|] eqn:Hfind.
  - apply find_some in Hfind as [Hm Hu]. apply bool_decide_eq_true in Hu.
    eexists _, m. split; [reflexivity|]. split; [by apply list_elem_of_In|done].
  - apply list_elem_of_fmap in Hin as (m & Hu & Hm).
    apply list_elem_of_In in Hm.
    pose proof (find_none _ _ Hfind m Hm) as Hno. simpl in Hno.
    apply bool_decide_eq_false in Hno. congruence.
Qed.

Lemma omap_memberInfo_userIds (memberships : list (string * DBTeamMembership.t))
    (users : list (string * DBUser.t)) :
  (∀ u, u ∈ users →
        u.1 ∈ map (λ m : string * DBTeamMembership.t, DBTeamMembership.userId m.2)
                memberships) →
  info_userId <$> omap (TeamDBImpl.memberInfo getPrimaryEmail memberships) users = users.*1.
Proof.
  induction users as [|u users IH]; intros Hall; [done|]. simpl.
  destruct (memberInfo_Some memberships u) as (info & m & -> & _ & _ & Hid & _);
    [apply Hall; left|].
  simpl. rewrite Hid. f_equal. apply IH. intros u' Hu'. apply Hall. by right.
Qed.

(** The entries of [findMembersByTeam] come from live membership rows of the
    organization. *)
Lemma run_findMembersByTeam_rows (teamId : string) (db : Store) :
  ∃ infos,
    run (TeamDBImpl.findMembersByTeam d_b_user getPrimaryEmail teamId) db = (inr infos, db)
    ∧ ∀ info, info ∈ infos →
        ∃ k m, d_b_team_membership db !! k = Some m
               ∧ DBTeamMembership.teamId m = teamId
               ∧ DBTeamMembership.deleted m = false
               ∧ DBTeamMembership.userId m = info_userId info
               ∧ DBTeamMembership.role m = info_role info
               ∧ DBTeamMembership.creationTime m = info_memberSince info.
Proof.
  unfold TeamDBImpl.findMembersByTeam. unfold_run.
  set (memberships := Repository.find _ (d_b_team_membership db)).
  set (users := Repository.findByIds _ d_b_user).
  eexists. split; [reflexivity|].
  intros info Hin. rewrite sort_Permutation in Hin.
  apply list_elem_of_omap in Hin as (u & Hu & Hinfo).
  assert (u.1 ∈ map (λ m : string * DBTeamMembership.t, DBTeamMembership.userId m.2)
                  memberships) as Hid.
  { destruct u as [k v]. by apply elem_of_findByIds in Hu as [Hk _]. }
  destruct (memberInfo_Some memberships u Hid)
    as (info' & [mid m] & Hinfo' & Hm & Huid & Hiid & Hrole & Hsince).
  apply elem_of_find in Hm as [[Ht Hd] Hl].
  rewrite Hinfo in Hinfo'. inversion Hinfo'; subst info'.
  exists mid, m. simpl in *. split; [done|]. split; [done|]. split; [done|].
  split; [congruence|]. by split.
Qed.

(** X27. [findMembersByTeam] lists, most recent first, one entry for every
    stored user who has a live membership in the organization, each user
    once; the role and the date of an entry are those of a live membership
    row of that user in the organization. *)
Theorem findMembersByTeam_sorted (teamId : string) (db : Store) :
  ∃ infos,
    run (TeamDBImpl.findMembersByTeam d_b_user getPrimaryEmail teamId) db = (inr infos, db)
    ∧ Sorted (λ a b, String.ltb (info_memberSince a) (info_memberSince b) = false) infos
    ∧ NoDup (info_userId <$> infos)
    ∧ (∀ uid, uid ∈ info_userId <$> infos
              ↔ is_Some (d_b_user !! uid)
                ∧ ∃ k m, d_b_team_membership db !! k = Some m
                         ∧ DBTeamMembership.teamId m = teamId
                         ∧ DBTeamMembership.userId m = uid
                         ∧ DBTeamMembership.deleted m = false)
    ∧ (∀ info, info ∈ infos →
         ∃ k m, d_b_team_membership db !! k = Some m
                ∧ DBTeamMembership.teamId m = teamId
                ∧ DBTeamMembership.deleted m = false
                ∧ DBTeamMembership.userId m = info_userId info
                ∧ DBTeamMembership.role m = info_role info
                ∧ DBTeamMembership.creationTime m = info_memberSince info).
Proof.
  unfold TeamDBImpl.findMembersByTeam. unfold_run.
  set (memberships := Repository.find _ (d_b_team_membership db)).
  set (users := Repository.findByIds _ d_b_user).
  set (infos := omap (TeamDBImpl.memberInfo getPrimaryEmail memberships) users).
  assert (∀ u, u ∈ users →
            u.1 ∈ map (λ m : string * DBTeamMembership.t, DBTeamMembership.userId m.2)
                    memberships) as Hids.
  { intros [k v] [Hk _]%elem_of_findByIds. done. }
  assert (∀ k m, (k, m) ∈ memberships
                 ↔ (DBTeamMembership.teamId m = teamId ∧ DBTeamMembership.deleted m = false)
                   ∧ d_b_team_membership db !! k = Some m) as Hmem.
  { intros k m. apply elem_of_find. }
  exists (JS.sort TeamDBImpl.byMemberSince infos). split; [reflexivity|].
  split; [|split; [|split]].
  - eapply Sorted_weaken; [|apply (sort_Sorted _ byMemberSince_consistent)].
    intros a b. apply byMemberSince_le.
  - rewrite sort_Permutation. unfold infos. rewrite omap_memberInfo_userIds by done.
    apply NoDup_fmap_2_strong; [|apply NoDup_filter, NoDup_map_to_list].
    intros [k1 v1] [k2 v2] [_ H1]%elem_of_findByIds [_ H2]%elem_of_findByIds Heq.
    simpl in Heq. subst k2. congruence.
  - intros uid. rewrite sort_Permutation. unfold infos.
    rewrite omap_memberInfo_userIds by done. rewrite list_elem_of_fmap. split.
    + intros ([k v] & -> & [Hk Hv]%elem_of_findByIds). simpl. split; [by exists v|].
      apply list_elem_of_fmap in Hk as ([mid m] & Hu & [[Ht Hd] Hl]%Hmem).
      exists mid, m. simpl in *. done.
    + intros ([v Hv] & mid & m & Hl & Ht & Hu & Hd). exists (uid, v). split; [done|].
      apply elem_of_findByIds. split; [|done]. apply list_elem_of_fmap.
      exists (mid, m). split; [done|]. by apply Hmem.
  - intros info Hin. rewrite sort_Permutation in Hin. unfold infos in Hin.
    apply list_elem_of_omap in Hin as (u & Hu & Hinfo).
    destruct (memberInfo_Some memberships u (Hids u Hu))
      as (info' & [mid m] & Hinfo' & [[Ht Hd] Hl]%Hmem & Huid & Hid & Hrole & Hsince).
    rewrite Hinfo in Hinfo'. inversion Hinfo'; subst info'.
    exists mid, m. simpl in *. split; [done|]. split; [done|]. split; [done|].
    split; [congruence|]. by split.
Qed.


Lemma run_conn {A} (m : Promise A) (db : Store) (a : A) :
  run m db = (inr a, db) → budget (m (mkConn db None)).2 = None →
  m (mkConn db None) = (inr a, mkConn db None).
Proof.
  unfold run, run_with. destruct (m (mkConn db None)) as [r [s b]]. simpl.
  intros [= -> ->] ->. done.
Qed.

(** The loop keeps what it has collected and adds the teams whose only
    owner entry is the user's. *)
Lemma soleOwnedAmong_spec (userId : string) (db : Store)
    (userTeams : list (string * DBTeam.t)) : ∀ acc,
  ∃ res,
    TeamDBImpl.soleOwnedAmong d_b_user getPrimaryEmail userId userTeams acc (mkConn db None)
    = (inr res, mkConn db None)
    ∧ ∀ x, x ∈ res
           ↔ x ∈ acc
             ∨ (x ∈ userTeams
                ∧ ∃ infos info,
                    run (TeamDBImpl.findMembersByTeam d_b_user getPrimaryEmail x.1) db
                    = (inr infos, db)
                    ∧ filter (λ m, info_role m = owner) infos = [info]
                    ∧ info_userId info = userId).
Proof.
  induction userTeams as [|team rest IH]; intros acc.
  - exists acc. split; [done|]. intros x. split; [by left|].
    intros [?|[Hin _]]; [done|]. by apply not_elem_of_nil in Hin.
  - destruct (run_findMembersByTeam_rows team.1 db) as (infos & Hrun & _).
    assert (TeamDBImpl.findMembersByTeam d_b_user getPrimaryEmail team.1 (mkConn db None)
            = (inr infos, mkConn db None)) as Hconn.
    { by apply run_conn. }
    simpl. unfold then_ at 1. rewrite Hconn.
    set (ownerships := filter (λ m, info_role m = owner) infos).
    destruct (decide (length ownerships = 1
                      ∧ info_userId <$> head ownerships = Some userId)) as [[Hlen Hhd]|Hno].
    + rewrite bool_decide_eq_true_2 by done.
      destruct (IH (acc ++ [team])%list) as (res & Hres & Hchar).
      exists res. split; [done|]. intros x. rewrite Hchar.
      assert (∃ info, ownerships = [info] ∧ info_userId info = userId) as (info & Hown & Hid).
      { destruct ownerships as [|i [|j l]]; simpl in *; try lia.
        exists i. split; [done|]. by inversion Hhd. }
      split.
      * intros [Hx|[Hx Hsole]]; [|right; split; [by right|done]].
        apply elem_of_app in Hx as [Hx|Hx]; [by left|].
        apply list_elem_of_singleton in Hx. subst x.
        right. split; [by left|]. exists infos, info. done.
      * intros [Hx|[Hx Hsole]]; [left; apply elem_of_app; by left|].
        apply elem_of_cons in Hx as [->|Hx]; [|right; by split].
        left. apply elem_of_app. right. by apply list_elem_of_singleton.
    + rewrite bool_decide_eq_false_2 by done.
      destruct (IH acc) as (res & Hres & Hchar).
      exists res. split; [done|]. intros x. rewrite Hchar. split.
      * intros [Hx|[Hx Hsole]]; [by left|right; split; [by right|done]].
      * intros [Hx|[Hx Hsole]]; [by left|].
        apply elem_of_cons in Hx as [->|Hx]; [|right; by split].
        destruct Hsole as (infos' & info & Hrun' & Hown & Hid).
        rewrite Hrun in Hrun'. inversion Hrun'; subst infos'.
        destruct Hno. fold ownerships in Hown. rewrite Hown. simpl. by rewrite Hid.
Qed.

(** X28. Every organization [findTeamsByUserAsSoleOwner] returns is one
    that [findTeamsByUser] lists for the user, in which the user has a live
    membership row with the role [owner], and for which
    [findMembersByTeam] shows no owner but the user. *)
Theorem findTeamsByUserAsSoleOwner_sound (userId : string) (db : Store) :
  ∃ teams,
    run (TeamDBImpl.findTeamsByUserAsSoleOwner d_b_user getPrimaryEmail userId) db
    = (inr teams, db)
    ∧ ∀ k t, (k, t) ∈ teams →
        d_b_team db !! k = Some t ∧ DBTeam.markedDeleted t = false
        ∧ (∃ mid m, d_b_team_membership db !! mid = Some m
                    ∧ DBTeamMembership.teamId m = k
                    ∧ DBTeamMembership.userId m = userId
                    ∧ DBTeamMembership.role m = owner
                    ∧ DBTeamMembership.deleted m = false)
        ∧ ∃ infos,
            run (TeamDBImpl.findMembersByTeam d_b_user getPrimaryEmail k) db = (inr infos, db)
            ∧ ∀ info, info ∈ infos → info_role info = owner → info_userId info = userId.
Proof.
  destruct (run_findTeamsByUser userId db) as (userTeams & Hteams & _ & Hchar).
  assert (TeamDBImpl.findTeamsByUser userId (mkConn db None)
          = (inr userTeams, mkConn db None)) as Hconn.
  { by apply run_conn. }
  destruct (soleOwnedAmong_spec userId db userTeams []) as (res & Hres & Hin).
  exists res. split.
  { unfold TeamDBImpl.findTeamsByUserAsSoleOwner, run, run_with, then_.
    by rewrite Hconn, Hres. }
  intros k t Hkt. apply Hin in Hkt as [Hnil|[Hkt (infos & info & Hrun & Hown & Hid)]];
    [by apply not_elem_of_nil in Hnil|].
  apply Hchar in Hkt as (Hl & Hmd & _). split; [done|]. split; [done|].
  destruct (run_findMembersByTeam_rows k db) as (infos' & Hrun' & Hrows).
  simpl in Hrun. rewrite Hrun in Hrun'. inversion Hrun'; subst infos'.
  assert (info ∈ filter (λ m, info_role m = owner) infos) as Hinfo by (rewrite Hown; left).
  apply list_elem_of_filter in Hinfo as [Hrole Hinfo].
  split.
  - destruct (Hrows info Hinfo) as (mid & m & Hm & Ht & Hd & Hu & Hr & _).
    exists mid, m. split; [done|]. split; [done|]. split; [congruence|].
    split; [congruence|done].
  - exists infos. split; [done|]. intros info' Hin' Hrole'.
    assert (info' ∈ filter (λ m, info_role m = owner) infos) as Hf
      by (by apply list_elem_of_filter).
    rewrite Hown in Hf. apply list_elem_of_singleton in Hf. by subst info'.
Qed.
End Members.
